(** * Whitepaper Rewriter: batch revision subsystem

    A shallow embedding of the batch revision code of the repository and the
    properties its specification states about it.

    Sources embedded here:
    - [src/gas/Code.ts]: the spreadsheet-bound script (module [CodeTs]);
    - the script listed in the repository's implementation guide, a second
      version of the same tool (modules [Guide], [GuideSheets] and
      [GuideRun]), and the backend listed with it (module [GuideBackend]);
    - [backend/src/services/openai.ts] and [backend/src/routes/schema.ts]
      (module [Backend]);
    - [backend/src/services/firestore.ts] (module [Firestore]) and the
      routes of [backend/src/routes/rewrite.ts] and [routes/schema.ts] with
      their services (module [Routes]).

    JavaScript strings are sequences of UTF-16 code units; a code unit is a
    number of type [N].  Cells and JSON values are values of [jsval]. *)

From stdpp Require Import gmap list strings pretty fin_maps.
From Stdlib Require Import ZArith Lia Permutation.
From Stdlib Require Ascii.

Open Scope nat_scope.

(** ** JavaScript values *)

Module Js.

(** A string literal of the source, as code units (ASCII literals only). *)
Definition lit (s : string) : list N :=
  Ascii.N_of_ascii <$> String.list_ascii_of_string s.

(** Decimal rendering of a number inside a template literal. *)
Definition show_nat (n : nat) : list N := lit (pretty n).
Definition show_Z (z : Z) : list N := lit (pretty z).

(** Values a JSON field or a written cell can hold.  [VNum] covers the
    integers; fractional numbers, arrays and nested objects are outside the
    model.  [VUndefined] is the value of a missing property or array slot. *)
Inductive jsval :=
| VUndefined
| VNull
| VBool (b : bool)
| VNum (n : Z)
| VStr (s : list N).

#[global] Instance jsval_eq_dec : EqDecision jsval.
Proof. solve_decision. Defined.

(** [if (v)]: the falsy values are undefined, null, false, 0 and the empty
    string. *)
Definition truthy (v : jsval) : bool :=
  match v with
  | VUndefined | VNull => false
  | VBool b => b
  | VNum n => negb (n =? 0)%Z
  | VStr s => negb (bool_decide (s = []))
  end.

(** [String(v)], which is [v.toString()] on the values that have the
    method. *)
Definition toString (v : jsval) : list N :=
  match v with
  | VUndefined => lit "undefined"
  | VNull => lit "null"
  | VBool true => lit "true"
  | VBool false => lit "false"
  | VNum n => show_Z n
  | VStr s => s
  end.

(** [v?.toString() || ''] *)
Definition text_of (v : jsval) : list N :=
  match v with
  | VUndefined | VNull => []
  | _ => toString v
  end.

(** White space and line terminators removed by [String.prototype.trim]. *)
Definition is_space (c : N) : bool :=
  bool_decide (c ∈ [9; 10; 11; 12; 13; 32; 160; 5760; 8232; 8233; 8239; 8287;
                    12288; 65279]%N)
  || ((8192 <=? c)%N && (c <=? 8202)%N).

Fixpoint drop_while {A} (p : A → bool) (l : list A) : list A :=
  match l with
  | [] => []
  | x :: l' => if p x then drop_while p l' else l
  end.

Definition trim (s : list N) : list N :=
  reverse (drop_while is_space (reverse (drop_while is_space s))).

(** [array.slice(s, e)] for [0 <= s <= e]. *)
Definition slice {A} (a : list A) (s e : nat) : list A := take (e - s) (drop s a).

(** [array.find(p)] *)
Fixpoint find {A} (p : A → bool) (a : list A) : option A :=
  match a with
  | [] => None
  | x :: a' => if p x then Some x else find p a'
  end.

(** [o[k] = v] on an object created by a literal: assigning to
    ["__proto__"] goes to the prototype setter and creates no own
    property. *)
Definition assign {V} (k : list N) (v : V) (o : gmap (list N) V) : gmap (list N) V :=
  if bool_decide (k = lit "__proto__") then o else <[k:=v]> o.

End Js.
Import Js.

(** ** The spreadsheet-bound script, [src/gas/Code.ts] *)

Module CodeTs.

Definition BATCH_SIZE : nat := 5.

(** *** [chunkArray]

    [for (let i = 0; i < array.length; i += size) chunks.push(array.slice(i, i + size))].
    The loop is run with fuel: with [size = 0] the source does not
    terminate, and the model then runs out of fuel. *)
Fixpoint chunk_loop {T} (fuel : nat) (array : list T) (size i : nat)
    (chunks : list (list T)) : option (list (list T)) :=
  if i <? length array then
    match fuel with
    | 0 => None
    | S fuel' =>
        chunk_loop fuel' array size (i + size) (chunks ++ [slice array i (i + size)])
    end
  else Some chunks.

Definition chunkArray {T} (array : list T) (size : nat) : option (list (list T)) :=
  chunk_loop (length array) array size 0 [].

(** *** Sheet names: [/^VER(\d+)$/i], [parseInt], [generateNextVersion] *)

Definition is_digit (c : N) : bool := (48 <=? c)%N && (c <=? 57)%N.

(** The letters the three pattern characters match under the [i] flag. *)
Definition is_V (c : N) : bool := bool_decide (c = 86%N) || bool_decide (c = 118%N).
Definition is_E (c : N) : bool := bool_decide (c = 69%N) || bool_decide (c = 101%N).
Definition is_R (c : N) : bool := bool_decide (c = 82%N) || bool_decide (c = 114%N).

(** [name.match(/^VER(\d+)$/i)]: the first capture group, when the name
    matches. *)
Definition match_VER (name : list N) : option (list N) :=
  match name with
  | v :: e :: r :: ds =>
      if is_V v && is_E e && is_R r && negb (bool_decide (ds = [])) && forallb is_digit ds
      then Some ds else None
  | _ => None
  end.

(** [parseInt] on a string of decimal digits.  The result is exact; the
    script computes with doubles, which agree below 2^53. *)
Definition parseInt (ds : list N) : N :=
  fold_left (λ acc d, acc * 10 + (d - 48))%N ds 0%N.

Definition show_N (n : N) : list N := lit (pretty n).

Definition generateNextVersion (currentName : list N) : list N :=
  match match_VER currentName with
  | Some ds => lit "VER" ++ show_N (parseInt ds + 1)
  | None => lit "VER2"
  end.

(** *** [detectSourceSheet]

    A sheet is identified by its name; [sheets] is [ss.getSheets()] in
    workbook order. *)
Record Scan := mkScan {
  highestVer : N;
  highestVerSheet : option (list N);
  whitepaperPlansSheet : option (list N) }.

Definition scan_sheet (sc : Scan) (name : list N) : Scan :=
  let sc1 :=
    match match_VER name with
    | Some ds =>
        let ver := parseInt ds in
        if (highestVer sc <? ver)%N
        then mkScan ver (Some name) (whitepaperPlansSheet sc)
        else sc
    | None => sc
    end in
  if bool_decide (name = lit "Whitepaper Plans")
  then mkScan (highestVer sc1) (highestVerSheet sc1) (Some name)
  else sc1.

Definition detectSourceSheet (sheets : list (list N)) : option (list N) :=
  let sc := fold_left scan_sheet sheets (mkScan 0 None None) in
  match highestVerSheet sc with
  | Some sheet => Some sheet
  | None =>
      match whitepaperPlansSheet sc with
      | Some sheet => Some sheet
      | None =>
          match find (λ name, bool_decide (name = lit "VER1")) sheets with
          | Some sheet => Some sheet
          | None =>
              match find (λ name, negb (bool_decide (name = lit "Backlog"))) sheets with
              | Some sheet => Some sheet
              | None => head sheets
              end
          end
      end
  end.

(** *** Diff highlighting *)

Record Segment := mkSegment { seg_type : list N; seg_start : nat; seg_end : nat }.

(** [computeSimpleDiff]: an empty list for equal strings, otherwise one
    insert segment over the whole of [str2]. *)
Definition computeSimpleDiff (str1 str2 : list N) : list Segment :=
  if bool_decide (str1 = str2) then []
  else [mkSegment (lit "insert") 0 (length str2)].

(** A rich-text value: the cell text and the ranges styled red. *)
Record RichText := mkRichText { rt_text : list N; rt_red : list (nat * nat) }.

Definition createDiffRichText (original revised : list N) : RichText :=
  let diff := computeSimpleDiff original revised in
  mkRichText revised
    ((λ sg, (seg_start sg, seg_end sg)) <$>
       filter (λ sg, seg_type sg = lit "insert") diff).

(** *** The revision run, [rewriteAllCommentedRows]

    The source grid [values] is a grid of strings.  A row of the backend's
    answer is a JSON object, a finite map from property names to values;
    only own properties are modelled, so a header that names a member of
    [Object.prototype] is outside the model. *)

Record CommentedRow := mkCommentedRow {
  rowIndex : nat;
  row : list (list N);
  comment : list N }.

Inductive LogType := INFO | API_REQUEST | API_RESPONSE | ERROR.

#[global] Instance LogType_eq_dec : EqDecision LogType.
Proof. solve_decision. Defined.

(** A line of the Backlog sheet; the timestamp and the details payload are
    not modelled. *)
Record LogEntry := mkLog {
  log_type : LogType;
  log_batchIndex : Z;
  log_status : list N;
  log_message : list N }.

(** One call of [setRichTextValue] on the destination sheet. *)
Record RichWrite := mkRichWrite { rw_row : nat; rw_col : nat; rw_value : RichText }.

Record State := mkState {
  dest : list (list jsval);
  rich : list RichWrite;
  backlog : list LogEntry;
  totalProcessed : nat;
  totalSuccess : nat;
  totalFailed : nat }.

Definition logToBacklog (ty : LogType) (bi : Z) (st msg : list N) (s : State) : State :=
  mkState (dest s) (rich s) (backlog s ++ [mkLog ty bi st msg])
          (totalProcessed s) (totalSuccess s) (totalFailed s).

Definition appendRow (r : list jsval) (s : State) : State :=
  mkState (dest s ++ [r]) (rich s) (backlog s)
          (totalProcessed s) (totalSuccess s) (totalFailed s).

(** The comment cell of a row: [row[headers.length - 1]]. *)
Definition comment_cell (headers row : list (list N)) : option (list N) :=
  match length headers with
  | 0 => None
  | S c => row !! c
  end.

(** [comment && comment.toString().trim() !== ''] *)
Definition has_comment (c : option (list N)) : bool :=
  match c with
  | None => false
  | Some s => negb (bool_decide (s = [])) && negb (bool_decide (trim s = []))
  end.

(** Step 5: [i] is the grid index of the first row of [rows]. *)
Fixpoint collect (headers : list (list N)) (i : nat) (rows : list (list (list N)))
    : list CommentedRow :=
  match rows with
  | [] => []
  | r :: rest =>
      let c := comment_cell headers r in
      (if has_comment c
       then [mkCommentedRow (i + 1) r (trim (default [] c))]
       else [])
      ++ collect headers (S i) rest
  end.

(** What the environment does with a request. *)
Inductive FetchResult :=
| FetchThrows (message : list N)
| FetchResponse (statusCode : nat) (responseText : list N).

(** What [JSON.parse] and the field reads of [callBackendAPIBatch] make of a
    response text: [JSON.parse] throws; or [result.success] is falsy; or
    reading [result.success], [result.data.rows.length] or
    [result.data.metadata.tokensUsed] throws; or the answer is a success
    whose [data.rows] is an array of objects. *)
Inductive ParsedBody :=
| BodySyntaxError (message : list N)
| BodyNotSuccess
| BodyTypeError (message : list N)
| BodyRows (rows : list (gmap (list N) jsval)).

Inductive Result (A : Type) :=
| Ok (a : A)
| Throw (message : list N).
Arguments Ok {A} a.
Arguments Throw {A} message.

(** [b.rowIndex === revisedRow.row_index] *)
Definition same_index (b : CommentedRow) (revisedRow : gmap (list N) jsval) : bool :=
  match revisedRow !! lit "row_index" with
  | Some (VNum z) => bool_decide (z = Z.of_nat (rowIndex b))
  | _ => false
  end.

(** [headers.map(header => revisedRow[key] !== undefined ? revisedRow[key] : '')]
    with [key = header.toString().trim()]. *)
Definition buildRow (headers : list (list N)) (revisedRow : gmap (list N) jsval)
    : list jsval :=
  (λ header,
     match revisedRow !! trim header with
     | Some VUndefined | None => VStr []
     | Some v => v
     end) <$> headers.

Section Run.

(** The response to the request sent for batch [batchIndex], and the reading
    of a response text. *)
Variable UrlFetchApp_fetch : nat → FetchResult.
Variable JSON_parse : list N → ParsedBody.

(** [callBackendAPIBatch]: the entries it logs and its outcome. *)
Definition callBackendAPIBatch (batchIndex : nat)
    : list LogEntry * Result (list (gmap (list N) jsval)) :=
  let request :=
    mkLog API_REQUEST (-1) (lit "SENDING") (lit "Sending request to Backend API") in
  match UrlFetchApp_fetch batchIndex with
  | FetchThrows msg => ([request], Throw msg)
  | FetchResponse statusCode responseText =>
      if 300 <=? statusCode then
        ([request],
         Throw (lit "Backend API error (" ++ show_nat statusCode ++ lit "): "
                ++ responseText))
      else
        match JSON_parse responseText with
        | BodySyntaxError msg => ([request], Throw msg)
        | BodyNotSuccess => ([request], Throw (lit "Backend API returned error"))
        | BodyTypeError msg => ([request], Throw msg)
        | BodyRows rows =>
            ([request;
              mkLog API_RESPONSE (-1) (lit "SUCCESS")
                    (lit "Received response from Backend API")],
             Ok rows)
        end
  end.

(** [applyDiffHighlighting]: the rich-text writes for one destination row.
    The calls on the spreadsheet are taken to succeed. *)
Definition applyDiffHighlighting (values : list (list (list N)))
    (destSheet : list (list jsval)) (sourceRow destRow colCount : nat)
    : list RichWrite :=
  let sourceValues := default [] (values !! (sourceRow - 1)) in
  let destValues := default [] (destSheet !! (destRow - 1)) in
  flat_map (λ col,
      let originalText := default [] (sourceValues !! col) in
      let revisedText := text_of (default VUndefined (destValues !! col)) in
      if bool_decide (originalText = revisedText) then []
      else [mkRichWrite destRow (col + 1) (createDiffRichText originalText revisedText)])
    (seq 0 colCount).

(** The body of [for (const revisedRow of batchResult.rows)]. *)
Definition applyResult (values : list (list (list N))) (headers : list (list N))
    (batch : list CommentedRow) (s : State) (revisedRow : gmap (list N) jsval)
    : State :=
  match find (λ b, same_index b revisedRow) batch with
  | None => s
  | Some originalRowData =>
      let s1 := appendRow (buildRow headers revisedRow) s in
      let destRowIndex := length (dest s1) in
      mkState (dest s1)
        (rich s1 ++ applyDiffHighlighting values (dest s1)
                      (rowIndex originalRowData) destRowIndex (length headers))
        (backlog s1) (totalProcessed s1) (S (totalSuccess s1)) (totalFailed s1)
  end.

(** The [catch] branch of a batch: the original rows are copied. *)
Definition copyOriginal (s : State) (item : CommentedRow) : State :=
  let s1 := appendRow (VStr <$> row item) s in
  mkState (dest s1) (rich s1) (backlog s1)
          (totalProcessed s1) (totalSuccess s1) (S (totalFailed s1)).

Definition addProcessed (n : nat) (s : State) : State :=
  mkState (dest s) (rich s) (backlog s)
          (totalProcessed s + n) (totalSuccess s) (totalFailed s).

Definition appendLog (entries : list LogEntry) (s : State) : State :=
  mkState (dest s) (rich s) (backlog s ++ entries)
          (totalProcessed s) (totalSuccess s) (totalFailed s).

(** One iteration of the batch loop; [nbatches] is [batches.length]. *)
Definition processBatch (values : list (list (list N))) (headers : list (list N))
    (nbatches batchIndex : nat) (batch : list CommentedRow) (s : State) : State :=
  let s1 :=
    logToBacklog INFO (Z.of_nat batchIndex) (lit "BATCH_START")
      (lit "Processing batch " ++ show_nat (batchIndex + 1) ++ lit "/"
       ++ show_nat nbatches) s in
  let '(entries, outcome) := callBackendAPIBatch batchIndex in
  let s2 := appendLog entries s1 in
  match outcome with
  | Ok rows =>
      let s3 :=
        logToBacklog API_RESPONSE (Z.of_nat batchIndex) (lit "SUCCESS")
          (lit "Batch processed successfully") s2 in
      addProcessed (length batch) (fold_left (applyResult values headers batch) rows s3)
  | Throw msg =>
      let s3 :=
        logToBacklog ERROR (Z.of_nat batchIndex) (lit "FAILED")
          (lit "Batch failed: " ++ msg) s2 in
      addProcessed (length batch) (fold_left copyOriginal batch s3)
  end.

(** The batch loop, from [batchIndex] on. *)
Fixpoint processBatches (values : list (list (list N))) (headers : list (list N))
    (nbatches batchIndex : nat) (batches : list (list CommentedRow)) (s : State)
    : State :=
  match batches with
  | [] => s
  | batch :: rest =>
      processBatches values headers nbatches (S batchIndex) rest
        (processBatch values headers nbatches batchIndex batch s)
  end.

(** Step 7: the rows without a comment, in grid order. *)
Definition uncommented (headers : list (list N)) (rows : list (list (list N)))
    : list (list (list N)) :=
  filter (λ r, has_comment (comment_cell headers r) = false) rows.

(** Step 8: the clean-up entries; [maxRows] and [maxCols] are what the
    destination sheet reports at that point. *)
Definition cleanup (maxRows maxCols totalCols : nat) (s : State) : State :=
  let totalRows := length (dest s) in
  let s1 :=
    if totalRows <? maxRows
    then logToBacklog INFO (-1) (lit "CLEANUP") (lit "Deleted empty rows") s
    else s in
  if totalCols <? maxCols
  then logToBacklog INFO (-1) (lit "CLEANUP") (lit "Deleted empty columns") s1
  else s1.

(** How a run ends: normally, or by rethrowing a fatal error after logging
    it. *)
Inductive Outcome :=
| Completed (s : State)
| Fatal (s : State) (message : list N).

(** [rewriteAllCommentedRows] from step 1 on.  [sourceSheetName] is the name
    of the detected source sheet, [destExisted] tells whether the
    destination sheet was already there. *)
Definition rewriteAllCommentedRows (sourceSheetName : list N) (destExisted : bool)
    (maxRows maxCols : nat) (values : list (list (list N))) : Outcome :=
  let s0 := mkState [] [] [] 0 0 0 in
  let s1 := logToBacklog INFO (-1) (lit "START") (lit "Starting rewrite process") s0 in
  let s2 :=
    logToBacklog INFO (-1) (lit "DETECTED") (lit "Source sheet: " ++ sourceSheetName) s1 in
  let destSheetName := generateNextVersion sourceSheetName in
  let s3 :=
    if destExisted
    then logToBacklog INFO (-1) (lit "CLEARED")
           (lit "Existing sheet " ++ destSheetName ++ lit " cleared") s2
    else logToBacklog INFO (-1) (lit "CREATED")
           (lit "New sheet " ++ destSheetName ++ lit " created") s2 in
  match values with
  | [] =>
      Fatal (logToBacklog ERROR (-1) (lit "FATAL")
               (lit "Fatal error: " ++ lit "Source sheet is empty") s3)
            (lit "Source sheet is empty")
  | headers :: rows =>
      let s4 := appendRow (VStr <$> headers) s3 in
      let s5 :=
        logToBacklog INFO (-1) (lit "HEADERS")
          (lit "Headers copied (" ++ show_nat (length headers) ++ lit " columns)") s4 in
      let commentedRows := collect headers 1 rows in
      let s6 :=
        logToBacklog INFO (-1) (lit "COLLECTED")
          (lit "Found " ++ show_nat (length commentedRows) ++ lit " commented rows") s5 in
      match chunkArray commentedRows BATCH_SIZE with
      | None => Fatal s6 [] (* the loop of [chunkArray] does not return *)
      | Some batches =>
          let s7 := processBatches values headers (length batches) 0 batches s6 in
          let s8 := fold_left (λ s r, appendRow (VStr <$> r) s) (uncommented headers rows) s7 in
          let s9 := cleanup maxRows maxCols (length headers) s8 in
          Completed
            (logToBacklog INFO (-1) (lit "COMPLETED") (lit "Rewrite process completed") s9)
      end
  end.

End Run.

End CodeTs.

(** ** The script of the implementation guide *)

Module Guide.

(** *** [longestCommonSubsequence] *)

Definition dp_get (dp : list (list nat)) (i j : nat) : nat :=
  default 0 (dp !! i ≫= λ r, r !! j).

Definition dp_set (dp : list (list nat)) (i j v : nat) : list (list nat) :=
  alter (λ r, <[j:=v]> r) i dp.

(** The body of the inner loop: [dp[i][j] = ...]. *)
Definition dp_cell (str1 str2 : list N) (dp : list (list nat)) (i j : nat)
    : list (list nat) :=
  if bool_decide (str1 !! (i - 1) = str2 !! (j - 1))
  then dp_set dp i j (dp_get dp (i - 1) (j - 1) + 1)
  else dp_set dp i j (Nat.max (dp_get dp (i - 1) j) (dp_get dp i (j - 1))).

Definition dp_fill (str1 str2 : list N) : list (list nat) :=
  let m := length str1 in
  let n := length str2 in
  fold_left (λ dp i, fold_left (λ dp j, dp_cell str1 str2 dp i j) (seq 1 n) dp)
    (seq 1 m) (replicate (m + 1) (replicate (n + 1) 0)).

(** [while (i > 0 && j > 0)]: every iteration lowers [i + j], which bounds
    the fuel. *)
Fixpoint backtrack (fuel : nat) (str1 str2 : list N) (dp : list (list nat))
    (i j : nat) (lcs : list N) : option (list N) :=
  if (0 <? i) && (0 <? j) then
    match fuel with
    | 0 => None
    | S fuel' =>
        if bool_decide (str1 !! (i - 1) = str2 !! (j - 1)) then
          backtrack fuel' str1 str2 dp (i - 1) (j - 1)
            (option_list (str1 !! (i - 1)) ++ lcs)
        else if dp_get dp i (j - 1) <? dp_get dp (i - 1) j then
          backtrack fuel' str1 str2 dp (i - 1) j lcs
        else
          backtrack fuel' str1 str2 dp i (j - 1) lcs
    end
  else Some lcs.

Definition longestCommonSubsequence (str1 str2 : list N) : option (list N) :=
  let m := length str1 in
  let n := length str2 in
  backtrack (m + n) str1 str2 (dp_fill str1 str2) m n [].

(** *** [createDiffRichText] *)

(** [while (oldIdx < oldText.length && oldText[oldIdx] !== char) oldIdx++],
    on the text from [oldIdx] on. *)
Fixpoint skip_old (char : N) (rest : list N) (oldIdx : nat) : nat :=
  match rest with
  | [] => oldIdx
  | c :: rest' => if bool_decide (c = char) then oldIdx else skip_old char rest' (S oldIdx)
  end.

(** The same loop on the new text; every position passed is styled red. *)
Fixpoint mark_new (char : N) (rest : list N) (newIdx : nat) : list (nat * nat) * nat :=
  match rest with
  | [] => ([], newIdx)
  | c :: rest' =>
      if bool_decide (c = char) then ([], newIdx)
      else let '(red, k) := mark_new char rest' (S newIdx) in
           ((newIdx, newIdx + 1) :: red, k)
  end.

(** [while (newIdx < newText.length) { setTextStyle(newIdx, newIdx + 1); newIdx++ }] *)
Definition mark_rest (newText : list N) (newIdx : nat) : list (nat * nat) :=
  (λ k, (k, k + 1)) <$> seq newIdx (length newText - newIdx).

(** The [for] loop over the characters of the common subsequence. *)
Fixpoint replay (lcs oldText newText : list N) (oldIdx newIdx : nat)
    : list (nat * nat) * nat :=
  match lcs with
  | [] => ([], newIdx)
  | char :: lcs' =>
      let oldIdx1 := skip_old char (drop oldIdx oldText) oldIdx in
      let '(red, newIdx1) := mark_new char (drop newIdx newText) newIdx in
      let '(red', k) := replay lcs' oldText newText (oldIdx1 + 1) (newIdx1 + 1) in
      (red ++ red', k)
  end.

(** The ranges given to [setTextStyle], in call order; [None] only if the
    backtracking loop ran out of fuel. *)
Definition createDiffRichText (oldText newText : list N) : option (list (nat * nat)) :=
  if bool_decide (oldText = newText) then Some []
  else
    lcs ← longestCommonSubsequence oldText newText;
    let '(red, newIdx) := replay lcs oldText newText 0 0 in
    Some (red ++ mark_rest newText newIdx).

(** *** Applying the updates of a batch, step 6 of [rewriteCommentedRows]

    The new sheet starts as a copy of the source sheet; a cell holds its
    text and the ranges styled red. *)

(** [String(v || '')] *)
Definition String_or_empty (v : jsval) : list N :=
  if truthy v then toString v else [].

Definition copySheet (data : list (list (list N))) : list (list (list N * list (nat * nat))) :=
  (λ r : list (list N), (λ c : list N, (c, @nil (nat * nat))) <$> r) <$> data.

(** [update.row_index] as a position in [data], when it is one:
    [data[rowIndex - 1]] is undefined otherwise. *)
Definition data_row (data : list (list (list N))) (update : gmap (list N) jsval)
    : option (nat * list (list N)) :=
  match update !! lit "row_index" with
  | Some (VNum z) =>
      if (1 <=? z)%Z then
        let r := Z.to_nat (z - 1) in
        (λ d, (r, d)) <$> data !! r
      else None
  | _ => None
  end.

(** The body of [headers.forEach] for one column.  The sheet is returned
    with the error, if any, that the cell read raised. *)
Definition applyCell (data : list (list (list N))) (headers : list (list N))
    (update : gmap (list N) jsval)
    (acc : list (list (list N * list (nat * nat))) * option (list N))
    (colIndex : nat) : list (list (list N * list (nat * nat))) * option (list N) :=
  let '(newSheet, err) := acc in
  match err with
  | Some _ => acc
  | None =>
      if bool_decide (Z.of_nat colIndex = Z.of_nat (length headers) - 1)%Z then acc
      else
        match headers !! colIndex ≫= λ header, update !! header with
        | None | Some VUndefined => acc
        | Some v =>
            match data_row data update with
            | None =>
                (newSheet, Some (lit "Cannot read properties of undefined"))
            | Some (r, d) =>
                let oldValue := default [] (d !! colIndex) in
                let newValue := String_or_empty v in
                match createDiffRichText oldValue newValue with
                | None => (newSheet, Some [])
                | Some red =>
                    (alter (λ line, <[colIndex:=(newValue, red)]> line) r newSheet, None)
                end
            end
        end
  end.

Definition applyUpdate (data : list (list (list N))) (headers : list (list N))
    (acc : list (list (list N * list (nat * nat))) * option (list N))
    (update : gmap (list N) jsval)
    : list (list (list N * list (nat * nat))) * option (list N) :=
  fold_left (applyCell data headers update) (seq 0 (length headers)) acc.

Definition applyUpdates (data : list (list (list N))) (headers : list (list N))
    (newSheet : list (list (list N * list (nat * nat))))
    (updates : list (gmap (list N) jsval))
    : list (list (list N * list (nat * nat))) * option (list N) :=
  fold_left (applyUpdate data headers) updates (newSheet, None).

End Guide.

(** ** The backend service *)

Module Backend.

(** *** [OpenAIService.generateSchema] *)

Inductive JsonType := TInteger | TString.

#[global] Instance JsonType_eq_dec : EqDecision JsonType.
Proof. solve_decision. Defined.

(** The schema of one element of [rows]. *)
Record ItemSchema := mkItem {
  item_required : list (list N);
  item_additionalProperties : bool;
  item_properties : gmap (list N) JsonType }.

(** The whole schema: an object with the one property [rows], an array of
    items. *)
Record Schema := mkSchema {
  schema_required : list (list N);
  schema_additionalProperties : bool;
  schema_rows_items : ItemSchema }.

Definition generateSchema (headers : list (list N)) : Schema :=
  let properties :=
    fold_left (λ props header, assign header TString props) headers
      {[ lit "row_index" := TInteger ]} in
  let requiredFields := [lit "row_index"] ++ headers in
  mkSchema [lit "rows"] false (mkItem requiredFields false properties).

(** *** [POST /api/schema/generate]

    [headers] is the body field when it is an array, [None] otherwise.
    Of a successful answer only the schema is modelled. *)
Inductive Response :=
| Failure (status : nat) (code : list N)
| Success (schema : Schema).

Definition is_string (v : jsval) : bool :=
  match v with VStr _ => true | _ => false end.

Definition string_of (v : jsval) : list N :=
  match v with VStr s => s | _ => [] end.

Definition schemaRoute (servicesInitialized : bool) (userId : jsval)
    (headers : option (list jsval)) (usageAllowed : bool) : Response :=
  if negb servicesInitialized then Failure 503 (lit "SERVICE_UNAVAILABLE")
  else if negb (truthy userId) || negb (is_string userId)
  then Failure 400 (lit "INVALID_USER_ID")
  else
    match headers with
    | None | Some [] => Failure 400 (lit "INVALID_HEADERS")
    | Some hs =>
        if negb (forallb is_string hs) then Failure 400 (lit "INVALID_HEADERS")
        else if negb usageAllowed then Failure 429 (lit "RATE_LIMIT_EXCEEDED")
        else Success (generateSchema (string_of <$> hs))
    end.

(** *** [OpenAIService.rewriteBatch], from the parsed answer on *)

Record InputRow := mkInputRow {
  row_index : Z;
  data : gmap (list N) (list N);
  comment : list N }.

(** [parsed.rows.map((row, idx) => ({ ...row, row_index: rows[idx].row_index }))]:
    reading [rows[idx].row_index] throws when the answer has more rows than
    the request. *)
Fixpoint fixRows (rows : list InputRow) (idx : nat)
    (parsedRows : list (gmap (list N) jsval))
    : CodeTs.Result (list (gmap (list N) jsval)) :=
  match parsedRows with
  | [] => CodeTs.Ok []
  | row :: rest =>
      match rows !! idx with
      | None =>
          CodeTs.Throw (lit "Cannot read properties of undefined (reading 'row_index')")
      | Some r =>
          match fixRows rows (S idx) rest with
          | CodeTs.Ok fixed =>
              CodeTs.Ok (<[lit "row_index" := VNum (row_index r)]> row :: fixed)
          | CodeTs.Throw msg => CodeTs.Throw msg
          end
      end
  end.

(** [parsedRows] is [parsed.rows] when the answer has the expected shape. *)
Definition rewriteBatch (rows : list InputRow)
    (parsedRows : option (list (gmap (list N) jsval)))
    : CodeTs.Result (list (gmap (list N) jsval)) :=
  match parsedRows with
  | Some prs =>
      match fixRows rows 0 prs with
      | CodeTs.Ok fixedRows => CodeTs.Ok fixedRows
      | CodeTs.Throw msg => CodeTs.Throw (lit "Failed to rewrite batch: " ++ msg)
      end
  | None =>
      CodeTs.Throw (lit "Failed to rewrite batch: "
                    ++ lit "OpenAI returned empty or invalid batch response")
  end.

(** The request the script sends for a batch: [formattedBatch] of
    [callBackendAPIBatch]. *)
Definition formatRow (headers : list (list N)) (item : CodeTs.CommentedRow) : InputRow :=
  mkInputRow (Z.of_nat (CodeTs.rowIndex item))
    (fold_left (λ d '(idx, header),
        assign header (default [] (CodeTs.row item !! idx)) d)
       (imap (λ idx header, (idx, header)) headers) ∅)
    (CodeTs.comment item).

End Backend.

(** ** The usage store, [services/firestore.ts]

    A document of the usage collection holds the calls and tokens of one
    user on one day; time stamps are not modelled, and numbers are the
    integers of the source below 2^53. *)

Module Firestore.

Record DailyUsage := mkDailyUsage {
  du_userId : list N;
  du_date : list N;
  totalCalls : Z;
  totalTokens : Z }.

Record UsageRecord := mkUsageRecord {
  userId : list N;
  apiCalls : Z;
  tokensUsed : Z;
  operation : list N }.

(** The two collections: the daily documents by their id, and the log of
    the single requests. *)
Record Db := mkDb {
  usage : gmap (list N) DailyUsage;
  logs : list UsageRecord }.

(** [options.maxRequestsPerDay || 100]; [None] stands for a missing option
    and for NaN. *)
Definition maxRequestsPerDay (configured : option Z) : Z :=
  match configured with
  | Some n => if (n =? 0)%Z then 100%Z else n
  | None => 100%Z
  end.

(** The document id [`${userId}_${today}`]. *)
Definition docId (userId today : list N) : list N := userId ++ lit "_" ++ today.

Record UsageCheck := mkUsageCheck {
  allowed : bool;
  remaining : Z }.

(** [checkUsageLimit]; [readable] tells whether [docRef.get()] succeeds. *)
Definition checkUsageLimit (max : Z) (readable : bool) (db : Db)
    (userId today : list N) : UsageCheck :=
  if negb readable then mkUsageCheck true max
  else
    match usage db !! docId userId today with
    | None => mkUsageCheck true max
    | Some data =>
        let remaining := (max - totalCalls data)%Z in
        mkUsageCheck (0 <? remaining)%Z (Z.max 0 remaining)
    end.

(** [recordUsage]; [writable] tells whether the transaction succeeds, its
    failure is logged and swallowed. *)
Definition recordUsage (writable : bool) (db : Db) (record : UsageRecord)
    (today : list N) : Db :=
  if negb writable then db
  else
    let id := docId (userId record) today in
    let daily :=
      match usage db !! id with
      | Some data =>
          mkDailyUsage (du_userId data) (du_date data)
            (totalCalls data + apiCalls record) (totalTokens data + tokensUsed record)
      | None =>
          mkDailyUsage (userId record) today (apiCalls record) (tokensUsed record)
      end in
    mkDb (<[id := daily]> (usage db)) (logs db ++ [record]).

(** [getDailyUsage]: [date || today]. *)
Definition getDailyUsage (readable : bool) (db : Db) (userId : list N)
    (date : option (list N)) (today : list N) : option DailyUsage :=
  let targetDate :=
    match date with
    | Some d => if bool_decide (d = []) then today else d
    | None => today
    end in
  if negb readable then None else usage db !! docId userId targetDate.

End Firestore.

(** ** The routes with their services, [routes/schema.ts] and
    [routes/rewrite.ts] *)

Module Routes.

Section Schema.

(** [Math.ceil(JSON.stringify(schema).length / 4)] *)
Variable estimateTokens : Backend.Schema → Z.

(** [POST /api/schema/generate] with both services initialised: the answer
    and the usage store after the request.  The request is taken to fall
    within one day, [today]. *)
Definition schemaRequest (max : Z) (readable writable : bool) (today : list N)
    (userId : jsval) (headers : option (list jsval)) (db : Firestore.Db)
    : Backend.Response * Firestore.Db :=
  let usageCheck :=
    Firestore.checkUsageLimit max readable db (Backend.string_of userId) today in
  match Backend.schemaRoute true userId headers (Firestore.allowed usageCheck) with
  | Backend.Success schema =>
      (Backend.Success schema,
       Firestore.recordUsage writable db
         (Firestore.mkUsageRecord (Backend.string_of userId) 1 (estimateTokens schema)
            (lit "schema"))
         today)
  | failure => (failure, db)
  end.

End Schema.




End Routes.

(** ** The sheet functions of the implementation guide

    [getSourceSheet] and [getNextVerName]; a sheet is identified by its
    name, [sheets] is [ss.getSheets()] in workbook order. *)

Module GuideSheets.

(** [/^VER\d+$/.test(name)] *)
Definition test_VER (name : list N) : bool :=
  match name with
  | v :: e :: r :: ds =>
      bool_decide (v = 86%N) && bool_decide (e = 69%N) && bool_decide (r = 82%N)
      && negb (bool_decide (ds = [])) && forallb CodeTs.is_digit ds
  | _ => false
  end.

(** [name.replace('VER', '')]: the first occurrence is removed. *)
Fixpoint replace_VER (name : list N) : list N :=
  match name with
  | [] => []
  | c :: rest =>
      if bool_decide (take 3 name = lit "VER") then drop 3 name
      else c :: replace_VER rest
  end.

(** [parseInt(name.replace('VER', ''))], for a name that passed the test. *)
Definition num (name : list N) : N := CodeTs.parseInt (replace_VER name).

(** [Array.prototype.sort] with a comparator.  The sort of the language is
    stable; for a comparator that orders by a key it gives the result of
    this insertion sort. *)
Fixpoint insert_sorted {A} (compare : A → A → Z) (x : A) (sorted : list A) : list A :=
  match sorted with
  | [] => [x]
  | y :: rest =>
      if (compare x y <=? 0)%Z then x :: sorted
      else y :: insert_sorted compare x rest
  end.

Definition sort {A} (compare : A → A → Z) (array : list A) : list A :=
  foldr (insert_sorted compare) [] array.

Definition getSourceSheet (sheets : list (list N)) (activeSheet : list N) : list N :=
  let verSheets := filter (λ name, test_VER name = true) sheets in
  if bool_decide (verSheets = []) then activeSheet
  else
    match sort (λ a b, Z.of_N (num b) - Z.of_N (num a))%Z verSheets with
    | first :: _ => first
    | [] => activeSheet
    end.

(** [Math.max(...nums)] of numbers that are not negative, at least one. *)
Definition Math_max (nums : list N) : N := foldr N.max 0%N nums.

Definition getNextVerName (sheets : list (list N)) : list N :=
  let verSheets := filter (λ name, test_VER name = true) sheets in
  if bool_decide (verSheets = []) then lit "VER2"
  else
    let maxNum := Math_max (num <$> verSheets) in
    lit "VER" ++ CodeTs.show_N (maxNum + 1).

(** The version number of a sheet name, for the names that have one. *)
Definition number (name : list N) : option N :=
  if test_VER name then Some (num name) else None.

(** [s] is the first of the sheets with the highest version number. *)
Definition first_highest (sheets : list (list N)) (s : list N) : Prop :=
  ∃ pre post,
    sheets = pre ++ s :: post
    ∧ test_VER s = true
    ∧ (∀ t, t ∈ pre → test_VER t = true → (num t < num s)%N)
    ∧ (∀ t, t ∈ post → test_VER t = true → (num t <= num s)%N).

End GuideSheets.

(** ** The run of the implementation guide, [rewriteCommentedRows]

    From the data of the source sheet on.  The log is not modelled; of the
    alerts, the ones that end the run and the batches that raised one. *)

Module GuideRun.

Record CommentedRow := mkCommentedRow {
  row_index : nat;
  record : gmap (list N) (list N);
  comment : list N }.

(** [headers.forEach((h, idx) => record[h] = String(row[idx] || ''))] *)
Definition make_record (headers row : list (list N)) : gmap (list N) (list N) :=
  fold_left (λ rec '(idx, h), assign h (default [] (row !! idx)) rec)
    (imap (λ idx h, (idx, h)) headers) ∅.

(** Step 3: [i] is the index in [data] of the first row of [rows]. *)
Fixpoint collect (headers : list (list N)) (i : nat) (rows : list (list (list N)))
    : list CommentedRow :=
  match rows with
  | [] => []
  | row :: rest =>
      let comment := trim (default [] (CodeTs.comment_cell headers row)) in
      (if bool_decide (comment = []) then []
       else [mkCommentedRow (i + 1) (make_record headers row) comment])
      ++ collect headers (S i) rest
  end.

Record State := mkState {
  newSheet : list (list (list N * list (nat * nat)));
  processedCount : nat;
  failed : list nat }.

Section Run.

(** What [callCloudRun] returns or throws for the batch of a number. *)
Variable callCloudRun : nat → CodeTs.Result (list (gmap (list N) jsval)).

(** One iteration of the batch loop. *)
Definition processBatch (data : list (list (list N))) (headers : list (list N))
    (batchIndex : nat) (batch : list CommentedRow) (s : State) : State :=
  match callCloudRun (batchIndex + 1) with
  | CodeTs.Ok updates =>
      match Guide.applyUpdates data headers (newSheet s) updates with
      | (sheet, None) => mkState sheet (processedCount s + length batch) (failed s)
      | (sheet, Some _) => mkState sheet (processedCount s) (failed s ++ [batchIndex + 1])
      end
  | CodeTs.Throw _ => mkState (newSheet s) (processedCount s) (failed s ++ [batchIndex + 1])
  end.

Fixpoint processBatches (data : list (list (list N))) (headers : list (list N))
    (batchIndex : nat) (batches : list (list CommentedRow)) (s : State) : State :=
  match batches with
  | [] => s
  | batch :: rest =>
      processBatches data headers (S batchIndex) rest
        (processBatch data headers batchIndex batch s)
  end.

Inductive Outcome :=
| Alert (message : list N)
| Done (s : State).


End Run.

End GuideRun.

(** ** The backend of the implementation guide: [src/usage.js],
    [rewriteHandler] of [src/openai.js] and the route of [src/index.js]

    A usage document counts the requests of one user in one month. *)

Module GuideBackend.

Record Usage := mkUsage {
  count : Z;
  tokens : Z }.

(** [parseInt(process.env.FREE_TIER_LIMIT) || 100]; [None] stands for a
    variable that is missing or not a number. *)
Definition FREE_TIER_LIMIT (configured : option Z) : Z :=
  match configured with
  | Some n => if (n =? 0)%Z then 100%Z else n
  | None => 100%Z
  end.

(** The document id [`${userEmail}_${month}`]. *)
Definition docId (userEmail month : list N) : list N := userEmail ++ lit "_" ++ month.

Record UsageStatus := mkUsageStatus {
  current : Z;
  limit : Z;
  remaining : Z;
  is_premium : bool }.

(** [checkPremiumStatus] *)
Definition checkPremiumStatus (userEmail : list N) : bool := false.

(** [checkUsage]; [premiumLimit] is [PREMIUM_TIER_LIMIT]. *)
Definition checkUsage (freeLimit premiumLimit : Z) (db : gmap (list N) Usage)
    (userEmail month : list N) : UsageStatus :=
  let current :=
    match db !! docId userEmail month with
    | Some data => count data
    | None => 0%Z
    end in
  let isPremium := checkPremiumStatus userEmail in
  let limit := if isPremium then premiumLimit else freeLimit in
  mkUsageStatus current limit (Z.max 0 (limit - current)) isPremium.

(** [recordUsage]: the usage document after the transaction; [tokens] is
    [metadata.tokens || 0]. *)
Definition recordUsage (db : gmap (list N) Usage) (userEmail month : list N)
    (metadata_tokens : Z) : gmap (list N) Usage :=
  let data := default (mkUsage 0 0) (db !! docId userEmail month) in
  <[docId userEmail month := mkUsage (count data + 1) (tokens data + metadata_tokens)]> db.

(** What the model call gives: a result with its token count, or an
    error. *)
Inductive OpenAIResult :=
| Responded (total_tokens : Z)
| OpenAIFailed.

Inductive HandlerResult :=
| Result (total_tokens : Z)
| USAGE_LIMIT_EXCEEDED (usage : UsageStatus)
| OPENAI_ERROR
| OtherError.

(** [rewriteHandler]; [keyLoaded] tells whether [getOpenAIKey] succeeds. *)
Definition rewriteHandler (freeLimit premiumLimit : Z) (keyLoaded : bool)
    (openai : OpenAIResult) (month userEmail : list N) (db : gmap (list N) Usage)
    : HandlerResult * gmap (list N) Usage :=
  let usage := checkUsage freeLimit premiumLimit db userEmail month in
  if (remaining usage <=? 0)%Z then (USAGE_LIMIT_EXCEEDED usage, db)
  else if negb keyLoaded then (OtherError, db)
  else
    match openai with
    | Responded total_tokens =>
        (Result total_tokens, recordUsage db userEmail month total_tokens)
    | OpenAIFailed => (OPENAI_ERROR, db)
    end.

(** The answer of [POST /api/rewrite]: the status, and the result for 200. *)
Inductive Response :=
| Status (code : nat)
| Success (total_tokens : Z).

(** [userEmail] is the [x-user-email] header, [None] when it is missing or
    empty; [batch] and [headers] tell whether the fields are arrays. *)
Definition rewriteRoute (freeLimit premiumLimit : Z) (keyLoaded : bool)
    (openai : OpenAIResult) (month : list N) (userEmail : option (list N))
    (batchIsArray headersIsArray : bool) (db : gmap (list N) Usage)
    : Response * gmap (list N) Usage :=
  match userEmail with
  | None => (Status 401, db)
  | Some email =>
      if negb batchIsArray || negb headersIsArray then (Status 400, db)
      else
        match rewriteHandler freeLimit premiumLimit keyLoaded openai month email db with
        | (Result total_tokens, db') => (Success total_tokens, db')
        | (USAGE_LIMIT_EXCEEDED _, db') => (Status 429, db')
        | (OPENAI_ERROR, db') => (Status 502, db')
        | (OtherError, db') => (Status 500, db')
        end
  end.

End GuideBackend.

(** * Definitions used by the statements *)

(** The [k]-th chunk cut from position [i] on. *)
Definition chunk_at {T} (array : list T) (size i k : nat) : list T :=
  slice array (i + k * size) (i + k * size + size).

(** ** Sheet name patterns *)

Module Spec.

(** "VER" followed by one or more digits, as the specification words it. *)
Definition VER_digits (name : list N) : Prop :=
  ∃ ds, ds ≠ [] ∧ Forall (λ c, CodeTs.is_digit c = true) ds ∧ name = lit "VER" ++ ds.

(** Upper case of an ASCII letter. *)
Definition upper (c : N) : N :=
  if (97 <=? c)%N && (c <=? 122)%N then (c - 32)%N else c.

(** The same pattern with the letters compared without regard to case. *)
Definition VER_digits_nocase (name : list N) : Prop :=
  ∃ p ds, name = p ++ ds ∧ upper <$> p = lit "VER"
          ∧ ds ≠ [] ∧ Forall (λ c, CodeTs.is_digit c = true) ds.

End Spec.

(** ** The schema a header list asks for *)

Module SchemaClaim.

(** The schema the claim describes for a header list: every header a
    required string property, [row_index] a required integer property, and
    no additional property allowed. *)
Definition as_claimed (headers : list (list N)) (s : Backend.Schema) : Prop :=
  let item := Backend.schema_rows_items s in
  (∀ h, h ∈ headers →
        Backend.item_properties item !! h = Some Backend.TString
        ∧ h ∈ Backend.item_required item)
  ∧ Backend.item_properties item !! lit "row_index" = Some Backend.TInteger
  ∧ lit "row_index" ∈ Backend.item_required item
  ∧ Backend.item_additionalProperties item = false.

End SchemaClaim.

(** ** The outcome of a batch *)

Module RunSpec.

(** A returned row belongs to a batch when its [row_index] is the number of
    one of the rows of the batch. *)
Definition in_batch (batch : list CodeTs.CommentedRow) (r : gmap (list N) jsval) : Prop :=
  ∃ b, b ∈ batch ∧ r !! lit "row_index" = Some (VNum (Z.of_nat (CodeTs.rowIndex b))).

Definition matched (batch : list CodeTs.CommentedRow) (r : gmap (list N) jsval) : bool :=
  bool_decide (is_Some (find (λ b, CodeTs.same_index b r) batch)).

(** The original rows of a batch, as written to the destination sheet. *)
Definition originals (batch : list CodeTs.CommentedRow) : list (list jsval) :=
  (λ item, VStr <$> CodeTs.row item) <$> batch.

(** The rows a batch adds to the destination sheet, by the outcome of its
    call. *)
Definition batch_rows (headers : list (list N)) (batch : list CodeTs.CommentedRow)
    (outcome : CodeTs.Result (list (gmap (list N) jsval))) : list (list jsval) :=
  match outcome with
  | CodeTs.Ok rows => CodeTs.buildRow headers <$> filter (λ r, matched batch r = true) rows
  | CodeTs.Throw _ => originals batch
  end.

(** The entries a batch adds to the log. *)
Definition batch_log (nbatches batchIndex : nat)
    (call : list CodeTs.LogEntry * CodeTs.Result (list (gmap (list N) jsval)))
    : list CodeTs.LogEntry :=
  [CodeTs.mkLog CodeTs.INFO (Z.of_nat batchIndex) (lit "BATCH_START")
     (lit "Processing batch " ++ show_nat (batchIndex + 1) ++ lit "/" ++ show_nat nbatches)]
  ++ call.1
  ++ [match call.2 with
      | CodeTs.Ok _ =>
          CodeTs.mkLog CodeTs.API_RESPONSE (Z.of_nat batchIndex) (lit "SUCCESS")
            (lit "Batch processed successfully")
      | CodeTs.Throw msg =>
          CodeTs.mkLog CodeTs.ERROR (Z.of_nat batchIndex) (lit "FAILED")
            (lit "Batch failed: " ++ msg)
      end].

Definition is_type (ty : CodeTs.LogType) (e : CodeTs.LogEntry) : bool :=
  bool_decide (CodeTs.log_type e = ty).

(** The error entries of batch [i]. *)
Definition is_error_of (i : nat) (e : CodeTs.LogEntry) : bool :=
  is_type CodeTs.ERROR e && bool_decide (CodeTs.log_batchIndex e = Z.of_nat i).

End RunSpec.

(** The entry [callBackendAPIBatch] logs before it sends the request. *)
Definition request_entry : CodeTs.LogEntry :=
  CodeTs.mkLog CodeTs.API_REQUEST (-1) (lit "SENDING") (lit "Sending request to Backend API").

(** ** Sample runs *)

(** A grid of eleven commented rows, in three batches; the second call
    fails. *)
Module ThreeBatches.

Definition headers : list (list N) := [lit "Title"; lit "Comment"].
Definition rows : list (list (list N)) := replicate 11 [lit "Draft"; lit "shorter"].
Definition fetch (j : nat) : CodeTs.FetchResult :=
  if j =? 1 then CodeTs.FetchThrows (lit "Timeout")
  else CodeTs.FetchResponse 200 (lit "{}").
Definition parse (text : list N) : CodeTs.ParsedBody := CodeTs.BodyRows [].
Definition batches : list (list CodeTs.CommentedRow) :=
  default [] (CodeTs.chunkArray (CodeTs.collect headers 1 rows) CodeTs.BATCH_SIZE).
Definition second : list CodeTs.CommentedRow := default [] (batches !! 1).

End ThreeBatches.

(** The end-to-end scenario of the specification, with the row numbers of
    the script. *)
Module Scenario.

Definition headers : list (list N) := [lit "No"; lit "Title"; lit "Comment"].
Definition values : list (list (list N)) :=
  [headers;
   [lit "1"; lit "Draft A"; lit ""];
   [lit "2"; lit "Draft B"; lit "make punchier"]].
(** The answer for the row in line 3 holds a new title and no [No] field. *)
Definition update : gmap (list N) jsval :=
  {[ lit "row_index" := VNum 3; lit "Title" := VStr (lit "Draft B!!") ]}.
Definition fetch (j : nat) : CodeTs.FetchResult := CodeTs.FetchResponse 200 (lit "{}").
Definition parse (text : list N) : CodeTs.ParsedBody := CodeTs.BodyRows [update].

End Scenario.

(** ** Version numbers *)

Module Version.

(** The number of a sheet name that matches the pattern of the script. *)
Definition number (name : list N) : option N :=
  CodeTs.parseInt <$> CodeTs.match_VER name.

(** The largest integer below which every integer is a double: the script
    computes version numbers with doubles. *)
Definition safe : N := (2 ^ 53)%N.

(** Every versioned sheet of the workbook has a number the script computes
    exactly. *)
Definition numbers_safe (sheets : list (list N)) : Prop :=
  ∀ name k, name ∈ sheets → number name = Some k → (k < safe)%N.

(** [s] is the first sheet of the workbook that carries the highest version
    number [n], and [n] is positive. *)
Definition first_highest (sheets : list (list N)) (s : list N) (n : N) : Prop :=
  ∃ i, sheets !! i = Some s ∧ number s = Some n ∧ (0 < n)%N
       ∧ (∀ name k, name ∈ sheets → number name = Some k → (k ≤ n)%N)
       ∧ (∀ j name k, j < i → sheets !! j = Some name → number name = Some k → (k < n)%N).

(** No sheet of the workbook has a positive version number. *)
Definition none_versioned (sheets : list (list N)) : Prop :=
  ∀ name k, name ∈ sheets → number name = Some k → k = 0%N.

(** The source sheet of a workbook without a versioned sheet. *)
Definition fallback (sheets : list (list N)) : option (list N) :=
  if decide (lit "Whitepaper Plans" ∈ sheets) then Some (lit "Whitepaper Plans")
  else match find (λ name, negb (bool_decide (name = lit "Backlog"))) sheets with
       | Some s => Some s
       | None => head sheets
       end.

(** What the scanning loop of [detectSourceSheet] knows after the sheets
    [l]. *)
Definition scan_inv (l : list (list N)) (sc : CodeTs.Scan) : Prop :=
  match CodeTs.highestVerSheet sc with
  | Some s => first_highest l s (CodeTs.highestVer sc)
  | None => CodeTs.highestVer sc = 0%N ∧ none_versioned l
  end
  ∧ CodeTs.whitepaperPlansSheet sc
    = if decide (lit "Whitepaper Plans" ∈ l) then Some (lit "Whitepaper Plans") else None.

End Version.

(** ** Counting the rows of a run *)

Module RunCount.

(** The rows a batch writes as revised, and the rows it copies after a
    failure, by the outcome of its call. *)
Definition revised (batch : list CodeTs.CommentedRow)
    (outcome : CodeTs.Result (list (gmap (list N) jsval))) : nat :=
  match outcome with
  | CodeTs.Ok rows => length (filter (λ r, RunSpec.matched batch r = true) rows)
  | CodeTs.Throw _ => 0
  end.



(** The answer the backend would give by sending a row back as it is. *)
Definition echo (headers : list (list N)) (item : CodeTs.CommentedRow)
    : gmap (list N) jsval :=
  <[lit "row_index" := VNum (Backend.row_index (Backend.formatRow headers item))]>
    (VStr <$> Backend.data (Backend.formatRow headers item)).

End RunCount.

(** ** Requests in a row *)

Module Quota.

(** [n] requests for a schema, one after the other, by one user on one
    day. *)
Fixpoint schemaRequests (estimateTokens : Backend.Schema → Z) (max : Z) (today : list N)
    (userId : jsval) (headers : option (list jsval)) (n : nat) (db : Firestore.Db)
    : list Backend.Response * Firestore.Db :=
  match n with
  | 0 => ([], db)
  | S n' =>
      let '(r, db1) :=
        Routes.schemaRequest estimateTokens max true true today userId headers db in
      let '(rs, db2) := schemaRequests estimateTokens max today userId headers n' db1 in
      (r :: rs, db2)
  end.

Definition is_success (r : Backend.Response) : bool :=
  match r with
  | Backend.Success _ => true
  | Backend.Failure _ _ => false
  end.

(** The calls recorded for a user on a day. *)
Definition calls (db : Firestore.Db) (userId today : list N) : Z :=
  match Firestore.usage db !! Firestore.docId userId today with
  | Some data => Firestore.totalCalls data
  | None => 0
  end.

(** The count of the calls of the user: no document, or a document with at
    least one call. *)
Definition counted (userId today : list N) (db : Firestore.Db) (c : Z) : Prop :=
  (c = 0%Z ∧ Firestore.usage db !! Firestore.docId userId today = None)
  ∨ ((1 ≤ c)%Z
     ∧ ∃ d, Firestore.usage db !! Firestore.docId userId today = Some d
            ∧ Firestore.totalCalls d = c).

End Quota.

(** ** Common subsequences *)

Module Lcs.

(** The length of a longest common subsequence of the first [i] characters
    of [str1] and the first [j] characters of [str2]. *)
Fixpoint table (str1 str2 : list N) (i : nat) : nat → nat :=
  match i with
  | 0 => λ _, 0
  | S i' =>
      fix row (j : nat) : nat :=
        match j with
        | 0 => 0
        | S j' =>
            if bool_decide (str1 !! i' = str2 !! j') then table str1 str2 i' j' + 1
            else Nat.max (table str1 str2 i' (S j')) (row j')
        end
  end.

(** The table of [longestCommonSubsequence] while it is filled: it has its
    shape, column 0 holds zeros, and the rows before [i] and row [i] up to
    column [j] hold the lengths. *)
Definition filled (str1 str2 : list N) (dp : list (list nat)) (i j : nat) : Prop :=
  length dp = length str1 + 1
  ∧ Forall (λ r, length r = length str2 + 1) dp
  ∧ (∀ i', Guide.dp_get dp i' 0 = 0)
  ∧ (∀ i' j', j' ≤ length str2 → i' < i ∨ (i' = i ∧ j' ≤ j) →
       Guide.dp_get dp i' j' = table str1 str2 i' j').

End Lcs.

(** ** The characters a diff leaves unstyled *)

Module Marks.

(** Whether the character at position [p] is in one of the ranges given to
    [setTextStyle]; every range of the guide's diff is one character
    long. *)
Definition styled (red : list (nat * nat)) (p : nat) : bool :=
  bool_decide ((p, p + 1) ∈ red).

(** The characters of [text], which starts at position [p], that are not
    styled. *)
Definition unmarked_from (p : nat) (text : list N) (red : list (nat * nat)) : list N :=
  concat (imap (λ q c, if styled red (p + q) then [] else [c]) text).

Definition unmarked (text : list N) (red : list (nat * nat)) : list N :=
  unmarked_from 0 text red.

(** The one-character range at a position. *)
Definition range (p : nat) : nat * nat := (p, p + 1).

End Marks.

(** ** The cells an update names *)

Module GuideSpec.

(** The cell at row [r] and column [c] of a sheet, both counted from 0. *)
Definition cell {A} (sheet : list (list A)) (r c : nat) : option A :=
  sheet !! r ≫= λ line, line !! c.



End GuideSpec.

(** ** Rich text and the sheet *)

Module RichSpec.



End RichSpec.

(** ** Requests in a month, to the backend of the guide *)

Module GuideQuota.

(** [n] rewrite requests of one user in one month, the model answering
    each with [total_tokens]. *)
Fixpoint requests (freeLimit premiumLimit total_tokens : Z) (month email : list N)
    (n : nat) (db : gmap (list N) GuideBackend.Usage)
    : list GuideBackend.Response * gmap (list N) GuideBackend.Usage :=
  match n with
  | 0 => ([], db)
  | S n' =>
      let '(r, db1) :=
        GuideBackend.rewriteRoute freeLimit premiumLimit true
          (GuideBackend.Responded total_tokens) month (Some email) true true db in
      let '(rs, db2) := requests freeLimit premiumLimit total_tokens month email n' db1 in
      (r :: rs, db2)
  end.

(** The requests counted for a user in a month. *)
Definition counted (email month : list N) (db : gmap (list N) GuideBackend.Usage) : Z :=
  match db !! GuideBackend.docId email month with
  | Some data => GuideBackend.count data
  | None => 0
  end.

End GuideQuota.

(** * Properties *)

(** ** Chunking *)

Section Chunking.

Context {T : Type}.
Implicit Types (array : list T) (size i n : nat).

Lemma chunk_at_shift array size i k :
  chunk_at array size i (S k) = chunk_at array size (i + size) k.
Proof. unfold chunk_at. f_equal; lia. Qed.

Lemma ceil_step size r :
  1 ≤ size → 1 ≤ r → (r + size - 1) / size = S ((r - size + size - 1) / size).
Proof.
  intros Hs Hr. destruct (decide (size ≤ r)) as [Hle|Hgt].
  - replace (r + size - 1) with ((r - size + size - 1) + 1 * size) by lia.
    rewrite Nat.div_add by lia. lia.
  - replace (r - size + size - 1) with (size - 1) by lia.
    rewrite (Nat.div_small (size - 1)) by lia.
    symmetry. apply (Nat.div_unique _ _ 1 (r - 1)); lia.
Qed.

(** The loop returns, and its result is the list of chunks in order. *)
Lemma chunk_loop_closed fuel array size i chunks :
  1 ≤ size → length array - i ≤ fuel →
  CodeTs.chunk_loop fuel array size i chunks
  = Some (chunks ++ (chunk_at array size i <$> seq 0 ((length array - i + size - 1) / size))).
Proof.
  intros Hs. revert i chunks.
  induction fuel as [|fuel IH]; intros i chunks Hfuel; simpl.
  - destruct (Nat.ltb_spec i (length array)); [lia|].
    replace (length array - i) with 0 by lia.
    rewrite Nat.div_small by lia. by rewrite app_nil_r.
  - destruct (Nat.ltb_spec i (length array)) as [Hlt|Hge].
    + rewrite IH by lia.
      rewrite (ceil_step size (length array - i)) by lia.
      replace (length array - (i + size)) with (length array - i - size) by lia.
      rewrite <- app_assoc. do 2 f_equal. simpl. f_equal.
      * unfold chunk_at. f_equal; lia.
      * rewrite <- fmap_S_seq, <- list_fmap_compose.
        apply list_fmap_ext. intros _ k _. simpl. by rewrite chunk_at_shift.
    + replace (length array - i) with 0 by lia.
      rewrite Nat.div_small by lia. by rewrite app_nil_r.
Qed.

Lemma take_plus (l : list T) a b : take (a + b) l = take a l ++ take b (drop a l).
Proof.
  revert l. induction a as [|a IH]; intros [|x l]; simpl; try done.
  - by rewrite take_nil.
  - by rewrite IH.
Qed.

Lemma concat_chunks array size i n :
  concat (chunk_at array size i <$> seq 0 n) = take (n * size) (drop i array).
Proof.
  revert i. induction n as [|n IH]; intros i; [done|].
  simpl seq. rewrite fmap_cons. simpl concat.
  rewrite <- fmap_S_seq, <- list_fmap_compose.
  rewrite (list_fmap_ext _ (chunk_at array size (i + size)) (seq 0 n)); cycle 1.
  { intros _ k _. simpl. by rewrite chunk_at_shift. }
  rewrite IH. unfold chunk_at, slice.
  replace (i + 0 * size + size - (i + 0 * size)) with size by lia.
  replace (i + 0 * size) with i by lia.
  replace (S n * size) with (size + n * size) by lia.
  rewrite take_plus. f_equal. by rewrite drop_drop.
Qed.

Lemma ceil_bounds size r :
  1 ≤ size → r ≤ (r + size - 1) / size * size ∧ (r + size - 1) / size * size < r + size.
Proof.
  intros Hs.
  pose proof (Nat.div_mod_eq (r + size - 1) size) as E.
  pose proof (Nat.mod_upper_bound (r + size - 1) size ltac:(lia)) as B.
  nia.
Qed.

Lemma length_chunk_at array size k :
  length (chunk_at array size 0 k) = Nat.min size (length array - k * size).
Proof.
  unfold chunk_at, slice. rewrite length_take, length_drop. lia.
Qed.

End Chunking.

(** C4. For a batch size of at least one, [chunkArray] returns; the batches
    number the ceiling of N/B; concatenated in order they are the input
    list, batch [k] being the rows from position [k * B] on; every batch but
    the last has [B] rows and the last has [N mod B] rows when that is not
    zero. *)
Theorem chunkArray_partitions {T} (rows : list T) (B : nat) :
  1 ≤ B →
  ∃ batches,
    CodeTs.chunkArray rows B = Some batches
    ∧ length batches = (length rows + B - 1) / B
    ∧ (length rows ≤ length batches * B ∧ length batches * B < length rows + B)
    ∧ concat batches = rows
    ∧ (∀ k b, batches !! k = Some b → b = take B (drop (k * B) rows))
    ∧ (∀ k b, batches !! k = Some b → S k < length batches → length b = B)
    ∧ (length rows `mod` B ≠ 0 →
       ∃ b, last batches = Some b ∧ length b = length rows `mod` B).
Proof.
  intros HB.
  set (n := (length rows + B - 1) / B).
  exists (chunk_at rows B 0 <$> seq 0 n).
  assert (Hn : length (chunk_at rows B 0 <$> seq 0 n) = n)
    by by rewrite length_fmap, length_seq.
  destruct (ceil_bounds B (length rows) HB) as [Hlo Hhi]. fold n in Hlo, Hhi.
  assert (Hk : ∀ k b, (chunk_at rows B 0 <$> seq 0 n) !! k = Some b →
                      k < n ∧ b = chunk_at rows B 0 k).
  { intros k b Hb. rewrite list_lookup_fmap in Hb.
    destruct (seq 0 n !! k) as [k'|] eqn:Hs; [|done].
    apply lookup_seq in Hs as [-> ?]. simpl in Hb. split; [done|congruence]. }
  split_and!.
  - unfold CodeTs.chunkArray. rewrite chunk_loop_closed by lia.
    simpl. by rewrite Nat.sub_0_r.
  - by rewrite Hn.
  - by rewrite Hn.
  - by rewrite Hn.
  - rewrite concat_chunks. simpl. apply take_ge. lia.
  - intros k b Hb. apply Hk in Hb as [_ ->]. unfold chunk_at, slice.
    simpl. f_equal. lia.
  - intros k b Hb Hlt. rewrite Hn in Hlt. apply Hk in Hb as [_ ->].
    rewrite length_chunk_at. nia.
  - intros Hmod.
    pose proof (Nat.div_mod_eq (length rows) B) as E.
    pose proof (Nat.mod_upper_bound (length rows) B ltac:(lia)) as Hub.
    assert (Hq : n = S (length rows / B)).
    { unfold n. symmetry.
      apply (Nat.div_unique _ _ _ (length rows `mod` B - 1)); lia. }
    exists (chunk_at rows B 0 (length rows / B)). split.
    + rewrite last_lookup, Hn, Hq, Nat.pred_succ.
      rewrite list_lookup_fmap, lookup_seq_lt by lia. done.
    + rewrite length_chunk_at. nia.
Qed.

(** A run of [chunkArray_partitions] on seven rows in batches of three. *)
Lemma chunkArray_partitions_witness :
  ∃ batches,
    CodeTs.chunkArray [1; 2; 3; 4; 5; 6; 7] 3 = Some batches
    ∧ length batches = (7 + 3 - 1) / 3
    ∧ (7 ≤ length batches * 3 ∧ length batches * 3 < 7 + 3)
    ∧ concat batches = [1; 2; 3; 4; 5; 6; 7]
    ∧ (∀ k b, batches !! k = Some b → b = take 3 (drop (k * 3) [1; 2; 3; 4; 5; 6; 7]))
    ∧ (∀ k b, batches !! k = Some b → S k < length batches → length b = 3)
    ∧ (7 `mod` 3 ≠ 0 → ∃ b, last batches = Some b ∧ length b = 7 `mod` 3).
Proof. apply (chunkArray_partitions [1; 2; 3; 4; 5; 6; 7] 3). lia. Defined.

(** ** The diff engine *)

(** The backtracking loop of the guide returns: its fuel covers [i + j]. *)
Lemma backtrack_returns fuel str1 str2 dp i j lcs :
  i + j ≤ fuel → is_Some (Guide.backtrack fuel str1 str2 dp i j lcs).
Proof.
  revert i j lcs. induction fuel as [|fuel IH]; intros i j lcs Hfuel; simpl.
  - replace i with 0 by lia. by eexists.
  - destruct (0 <? i) eqn:Hi; [|by eexists].
    destruct (0 <? j) eqn:Hj; [|by eexists]. simpl.
    apply Nat.ltb_lt in Hi, Hj.
    repeat case_match; apply IH; lia.
Qed.

Lemma guide_diff_returns oldText newText :
  is_Some (Guide.createDiffRichText oldText newText).
Proof.
  unfold Guide.createDiffRichText, Guide.longestCommonSubsequence.
  case_bool_decide; [by eexists|].
  destruct (backtrack_returns (length oldText + length newText) oldText newText
              (Guide.dp_fill oldText newText) (length oldText) (length newText) [])
    as [lcs ->]; [lia|].
  simpl. destruct (Guide.replay lcs oldText newText 0 0). by eexists.
Qed.

(** C8. On an identical pair the diff is empty: [computeSimpleDiff] of the
    script returns no segment, the rich text it builds styles nothing, and
    [createDiffRichText] of the guide returns without styling any range. *)
Theorem diff_identical_empty (a : list N) :
  CodeTs.computeSimpleDiff a a = []
  ∧ CodeTs.rt_red (CodeTs.createDiffRichText a a) = []
  ∧ Guide.createDiffRichText a a = Some [].
Proof.
  unfold CodeTs.createDiffRichText, CodeTs.computeSimpleDiff, Guide.createDiffRichText.
  rewrite !bool_decide_eq_true_2 by done. done.
Qed.

(** C5. On the pair "abc" / "abXc" the script's [computeSimpleDiff] returns
    one insert segment over the whole new string, the range [0,4), and not
    the range [2,3) of the inserted character; the guide's LCS-based
    [createDiffRichText] styles exactly the range [2,3). *)
Theorem simple_diff_marks_whole_string :
  CodeTs.computeSimpleDiff (lit "abc") (lit "abXc")
    = [CodeTs.mkSegment (lit "insert") 0 4]
  ∧ CodeTs.rt_red (CodeTs.createDiffRichText (lit "abc") (lit "abXc")) = [(0, 4)]
  ∧ Guide.longestCommonSubsequence (lit "abc") (lit "abXc") = Some (lit "abc")
  ∧ Guide.createDiffRichText (lit "abc") (lit "abXc") = Some [(2, 3)].
Proof. split_and!; vm_compute; reflexivity. Qed.

(** ** Version names *)


Lemma lit_VER : lit "VER" = [86; 69; 82]%N.
Proof. reflexivity. Qed.

Lemma upper_V c : Spec.upper c = 86%N ↔ CodeTs.is_V c = true.
Proof.
  unfold Spec.upper, CodeTs.is_V.
  rewrite orb_true_iff, !bool_decide_eq_true.
  destruct (N.leb_spec 97 c), (N.leb_spec c 122); simpl; lia.
Qed.

Lemma upper_E c : Spec.upper c = 69%N ↔ CodeTs.is_E c = true.
Proof.
  unfold Spec.upper, CodeTs.is_E.
  rewrite orb_true_iff, !bool_decide_eq_true.
  destruct (N.leb_spec 97 c), (N.leb_spec c 122); simpl; lia.
Qed.

Lemma upper_R c : Spec.upper c = 82%N ↔ CodeTs.is_R c = true.
Proof.
  unfold Spec.upper, CodeTs.is_R.
  rewrite orb_true_iff, !bool_decide_eq_true.
  destruct (N.leb_spec 97 c), (N.leb_spec c 122); simpl; lia.
Qed.

(** The regular expression of the script matches exactly the names of the
    pattern read without regard to case. *)
Lemma match_VER_nocase name :
  is_Some (CodeTs.match_VER name) ↔ Spec.VER_digits_nocase name.
Proof.
  split.
  - intros [ds Hm]. destruct name as [|v [|e [|r ds']]]; try done.
    simpl in Hm.
    destruct (CodeTs.is_V v) eqn:HV; [|done].
    destruct (CodeTs.is_E e) eqn:HE; [|done].
    destruct (CodeTs.is_R r) eqn:HR; [|done].
    destruct (bool_decide (ds' = [])) eqn:Hnil; [done|].
    destruct (forallb CodeTs.is_digit ds') eqn:Hd; [|done].
    exists [v; e; r], ds'. split_and!.
    + done.
    + rewrite lit_VER. simpl.
      apply upper_V in HV. apply upper_E in HE. apply upper_R in HR. congruence.
    + by apply bool_decide_eq_false in Hnil.
    + apply Forall_forall. intros c Hc.
      rewrite forallb_forall in Hd. apply Hd. by apply list_elem_of_In.
  - intros (p & ds & -> & Hp & Hne & Hd).
    rewrite lit_VER in Hp.
    destruct p as [|v [|e [|r [|? ?]]]]; try done.
    simpl in Hp. injection Hp as HV HE HR.
    apply upper_V in HV. apply upper_E in HE. apply upper_R in HR.
    simpl. rewrite HV, HE, HR. simpl.
    rewrite bool_decide_eq_false_2 by done. simpl.
    assert (forallb CodeTs.is_digit ds = true) as ->; [|by eexists].
    apply forallb_forall. intros c Hc. rewrite Forall_forall in Hd.
    apply Hd. by apply list_elem_of_In.
Qed.

(** C6, as the code has it. Whatever the order of the four sheets VER1,
    VER3, VER2 and Backlog in the workbook, [detectSourceSheet] returns VER3;
    [generateNextVersion] maps VER3 to VER4, Notes to VER2, and every name
    that is not VER followed by digits, letters compared without regard to
    case, to VER2. *)
Theorem version_resolution :
  (∀ sheets,
     [lit "VER1"; lit "VER3"; lit "VER2"; lit "Backlog"] ≡ₚ sheets →
     CodeTs.detectSourceSheet sheets = Some (lit "VER3"))
  ∧ CodeTs.generateNextVersion (lit "VER3") = lit "VER4"
  ∧ CodeTs.generateNextVersion (lit "Notes") = lit "VER2"
  ∧ (∀ name, ¬ Spec.VER_digits_nocase name →
       CodeTs.generateNextVersion name = lit "VER2").
Proof.
  split_and!.
  - intros sheets Hp. apply permutations_Permutation in Hp.
    revert sheets Hp. apply Forall_forall.
    apply (bool_decide_unpack _). vm_compute. exact I.
  - vm_compute. reflexivity.
  - vm_compute. reflexivity.
  - intros name Hn. unfold CodeTs.generateNextVersion.
    destruct (CodeTs.match_VER name) as [ds|] eqn:Hm; [|done].
    exfalso. apply Hn, match_VER_nocase. by eexists.
Qed.

Lemma version_resolution_witness :
  CodeTs.detectSourceSheet [lit "VER2"; lit "Backlog"; lit "VER3"; lit "VER1"]
    = Some (lit "VER3")
  ∧ CodeTs.generateNextVersion (lit "Whitepaper Plans") = lit "VER2".
Proof.
  destruct version_resolution as (Hdetect & _ & _ & Hnext). split.
  - apply Hdetect.
    apply (bool_decide_unpack _). vm_compute. exact I.
  - apply Hnext. rewrite <- match_VER_nocase. vm_compute.
    intros [? ?]. discriminate.
Defined.

(** C6 as stated fails on a name in lower case: "ver3" is not VER followed
    by digits, and [generateNextVersion] maps it to VER4. *)
Lemma lower_case_name_is_versioned :
  ¬ (∀ name, ¬ Spec.VER_digits name → CodeTs.generateNextVersion name = lit "VER2").
Proof.
  intros H. specialize (H (lit "ver3")).
  assert (Hn : ¬ Spec.VER_digits (lit "ver3")).
  { intros (ds & _ & _ & E). vm_compute in E. discriminate. }
  apply H in Hn. vm_compute in Hn. discriminate.
Qed.

(** ** The schema builder *)

Lemma assign_fold_lookup (headers : list (list N)) (init : gmap (list N) Backend.JsonType) k :
  fold_left (λ props header, assign header Backend.TString props) headers init !! k
  = if decide (k ∈ headers ∧ k ≠ lit "__proto__") then Some Backend.TString else init !! k.
Proof.
  revert init. induction headers as [|h headers IH]; intros init; cbn [fold_left].
  - rewrite decide_False; [done|]. intros [H _]. by apply elem_of_nil in H.
  - rewrite IH. unfold assign at 1.
    destruct (decide (k ∈ headers ∧ k ≠ lit "__proto__")) as [[Hin Hp]|Hn].
    + rewrite decide_True; [done|]. split; [by right|done].
    + case_bool_decide as Hh.
      * subst h. rewrite decide_False; [done|].
        intros [H Hp]. apply elem_of_cons in H as [->|H]; [done|].
        by apply Hn.
      * destruct (decide (k = h)) as [->|Hkh].
        -- rewrite lookup_insert_eq. rewrite decide_True; [done|].
           split; [by left|done].
        -- rewrite lookup_insert_ne by done.
           rewrite decide_False; [done|].
           intros [H Hp]. apply elem_of_cons in H as [?|H]; [done|]. by apply Hn.
Qed.


(** C9, as the code has it.  The route never answers an empty header list
    with a schema, and answers it with status 400 and code INVALID_HEADERS
    once the services and the user id are in order.  For a non-empty list of
    string headers none of which is "row_index" or "__proto__", it answers
    with the schema of [generateSchema]: the required names are [row_index]
    followed by the headers as given, [row_index] is an integer property,
    every header is a string property under its own name, there is no other
    property, and additional properties are not allowed. *)
Theorem schema_route_headers :
  (∀ servicesInitialized userId usageAllowed,
     ∃ status code,
       Backend.schemaRoute servicesInitialized userId (Some []) usageAllowed
       = Backend.Failure status code)
  ∧ (∀ userId usageAllowed,
       truthy userId && Backend.is_string userId = true →
       Backend.schemaRoute true userId (Some []) usageAllowed
       = Backend.Failure 400 (lit "INVALID_HEADERS"))
  ∧ (∀ userId (headers : list (list N)),
       truthy userId && Backend.is_string userId = true →
       headers ≠ [] → lit "row_index" ∉ headers → lit "__proto__" ∉ headers →
       let s := Backend.generateSchema headers in
       let item := Backend.schema_rows_items s in
       Backend.schemaRoute true userId (Some (VStr <$> headers)) true = Backend.Success s
       ∧ SchemaClaim.as_claimed headers s
       ∧ Backend.item_required item = lit "row_index" :: headers
       ∧ (∀ k, is_Some (Backend.item_properties item !! k) →
               k = lit "row_index" ∨ k ∈ headers)
       ∧ Backend.schema_required s = [lit "rows"]
       ∧ Backend.schema_additionalProperties s = false).
Proof.
  split_and!.
  - intros servicesInitialized userId usageAllowed. unfold Backend.schemaRoute.
    destruct (negb servicesInitialized); [by eexists _, _|].
    destruct (negb (truthy userId) || negb (Backend.is_string userId));
      by eexists _, _.
  - intros userId usageAllowed Huser. apply andb_true_iff in Huser as [Ht Hs].
    unfold Backend.schemaRoute. simpl. by rewrite Ht, Hs.
  - intros userId headers Huser Hne Hri Hproto s item.
    apply andb_true_iff in Huser as [Ht Hs].
    assert (Hlook : ∀ k, Backend.item_properties item !! k
                         = if decide (k ∈ headers ∧ k ≠ lit "__proto__")
                           then Some Backend.TString
                           else ({[lit "row_index" := Backend.TInteger]}
                                   : gmap (list N) Backend.JsonType) !! k).
    { intros k. apply assign_fold_lookup. }
    split_and!.
    + unfold Backend.schemaRoute. simpl. rewrite Ht, Hs. simpl.
      destruct headers as [|h headers]; [done|].
      rewrite fmap_cons.
      assert (forallb Backend.is_string (VStr h :: (VStr <$> headers)) = true) as ->.
      { apply forallb_forall. intros v Hv. apply list_elem_of_In in Hv.
        apply elem_of_cons in Hv as [->|Hv]; [done|].
        apply list_elem_of_fmap in Hv as (? & -> & _). done. }
      simpl. do 2 f_equal.
      rewrite <- list_fmap_compose. simpl.
      rewrite (list_fmap_ext _ id headers); [|done]. by rewrite list_fmap_id.
    + unfold SchemaClaim.as_claimed. fold s. fold item. split_and!.
      * intros h Hh. split.
        -- rewrite Hlook, decide_True; [done|].
           split; [done|]. intros ->. done.
        -- simpl. by right.
      * rewrite Hlook, decide_False by (intros [? _]; done).
        by rewrite lookup_singleton_eq.
      * simpl. by left.
      * done.
    + done.
    + intros k [ty Hk]. rewrite Hlook in Hk.
      destruct (decide (k ∈ headers ∧ k ≠ lit "__proto__")) as [Hd|Hd];
        [right; by destruct Hd|].
      left. destruct (decide (k = lit "row_index")) as [->|Hkr]; [done|].
      by rewrite lookup_singleton_ne in Hk.
    + done.
    + done.
Qed.

Lemma schema_route_headers_witness :
  Backend.schemaRoute true (VStr (lit "u1")) (Some []) true
    = Backend.Failure 400 (lit "INVALID_HEADERS")
  ∧ Backend.schemaRoute true (VStr (lit "u1"))
      (Some (VStr <$> [lit "No"; lit "Title"; lit "Comment"])) true
    = Backend.Success (Backend.generateSchema [lit "No"; lit "Title"; lit "Comment"]).
Proof.
  destruct schema_route_headers as (_ & Hempty & Hsome). split.
  - apply Hempty. vm_compute. reflexivity.
  - apply (Hsome (VStr (lit "u1")) [lit "No"; lit "Title"; lit "Comment"]).
    + vm_compute. reflexivity.
    + discriminate.
    + apply (bool_decide_unpack _). vm_compute. exact I.
    + apply (bool_decide_unpack _). vm_compute. exact I.
Defined.

(** C9 as stated fails on a column named row_index: the header overwrites
    the integer property, and the schema then types [row_index] as a
    string. *)
Lemma header_named_row_index :
  ¬ (∀ headers, headers ≠ [] →
       SchemaClaim.as_claimed headers (Backend.generateSchema headers)).
Proof.
  intros H. destruct (H [lit "row_index"]) as (_ & Hint & _); [discriminate|].
  vm_compute in Hint. discriminate.
Qed.

(** ** Row index reconciliation *)

Lemma find_is_Some {A} (p : A → bool) (l : list A) x :
  x ∈ l → p x = true → is_Some (find p l).
Proof.
  induction l as [|y l IH]; intros Hin Hp; [by apply elem_of_nil in Hin|].
  simpl. destruct (p y) eqn:Hy; [by eexists|].
  apply elem_of_cons in Hin as [->|Hin]; [congruence|]. by apply IH.
Qed.

Lemma fixRows_spec (rows : list Backend.InputRow) (idx : nat)
    (parsedRows : list (gmap (list N) jsval)) :
  idx + length parsedRows ≤ length rows →
  ∃ fixedRows,
    Backend.fixRows rows idx parsedRows = CodeTs.Ok fixedRows
    ∧ length fixedRows = length parsedRows
    ∧ ∀ i fixed, fixedRows !! i = Some fixed →
        ∃ r row, rows !! (idx + i) = Some r ∧ parsedRows !! i = Some row
                 ∧ fixed = <[lit "row_index" := VNum (Backend.row_index r)]> row.
Proof.
  revert idx. induction parsedRows as [|row rest IH]; intros idx Hlen.
  - exists []. split_and!; [done..|]. intros i fixed Hi. done.
  - simpl in *.
    destruct (lookup_lt_is_Some_2 rows idx ltac:(lia)) as [r Hr].
    destruct (IH (S idx) ltac:(lia)) as (fixed' & Hfix & Hl & Hpos).
    rewrite Hr, Hfix. eexists. split_and!; [done|simpl; by rewrite Hl|].
    intros [|i] fixed Hi; simpl in Hi.
    + injection Hi as <-. exists r, row. rewrite Nat.add_0_r. done.
    + destruct (Hpos i fixed Hi) as (r' & row' & Hr' & Hrow' & ->).
      exists r', row'. split_and!; [|done..].
      by replace (idx + S i) with (S idx + i) by lia.
Qed.

Lemma applyResult_matched values headers batch s revisedRow :
  is_Some (find (λ b, CodeTs.same_index b revisedRow) batch) →
  CodeTs.dest (CodeTs.applyResult values headers batch s revisedRow)
  = CodeTs.dest s ++ [CodeTs.buildRow headers revisedRow].
Proof. intros [b Hb]. unfold CodeTs.applyResult. by rewrite Hb. Qed.

Lemma applyResults_all_matched values headers batch rows s :
  Forall (λ revisedRow, is_Some (find (λ b, CodeTs.same_index b revisedRow) batch)) rows →
  CodeTs.dest (fold_left (CodeTs.applyResult values headers batch) rows s)
  = CodeTs.dest s ++ (CodeTs.buildRow headers <$> rows).
Proof.
  intros Hall. revert s. induction Hall as [|r rows Hr _ IH]; intros s; simpl.
  - by rewrite app_nil_r.
  - rewrite IH, applyResult_matched by done. by rewrite <- app_assoc.
Qed.

(** C10. When the parsed answer has at most as many rows as the request,
    [rewriteBatch] returns it with the [row_index] of the i-th row replaced
    by the [row_index] of the i-th request row, whatever value it held, and
    every other property kept.  When the request is the one the script sends
    for a batch, every returned row then finds its row of the batch in the
    script's reconciliation, and the script writes one row per returned row:
    none is discarded. *)
Theorem row_index_overwritten_positionally (rows : list Backend.InputRow)
    (parsedRows : list (gmap (list N) jsval)) :
  length parsedRows ≤ length rows →
  ∃ fixedRows,
    Backend.rewriteBatch rows (Some parsedRows) = CodeTs.Ok fixedRows
    ∧ length fixedRows = length parsedRows
    ∧ (∀ i fixed, fixedRows !! i = Some fixed →
         ∃ r row, rows !! i = Some r ∧ parsedRows !! i = Some row
           ∧ fixed !! lit "row_index" = Some (VNum (Backend.row_index r))
           ∧ ∀ k, k ≠ lit "row_index" → fixed !! k = row !! k)
    ∧ (∀ headers batch values s,
         rows = Backend.formatRow headers <$> batch →
         Forall (λ fixed, is_Some (find (λ b, CodeTs.same_index b fixed) batch)) fixedRows
         ∧ CodeTs.dest (fold_left (CodeTs.applyResult values headers batch) fixedRows s)
           = CodeTs.dest s ++ (CodeTs.buildRow headers <$> fixedRows)).
Proof.
  intros Hlen.
  destruct (fixRows_spec rows 0 parsedRows ltac:(simpl; lia)) as (fixedRows & Hfix & Hl & Hpos).
  exists fixedRows. unfold Backend.rewriteBatch. rewrite Hfix.
  assert (Hmatch : ∀ headers batch, rows = Backend.formatRow headers <$> batch →
            Forall (λ fixed, is_Some (find (λ b, CodeTs.same_index b fixed) batch)) fixedRows).
  { intros headers batch ->. apply Forall_lookup. intros i fixed Hi.
    destruct (Hpos i fixed Hi) as (r & row & Hr & _ & ->). simpl in Hr.
    rewrite list_lookup_fmap in Hr.
    destruct (batch !! i) as [b|] eqn:Hb; [|done]. injection Hr as <-.
    apply (find_is_Some _ _ b); [by eapply list_elem_of_lookup_2|].
    unfold CodeTs.same_index. rewrite lookup_insert_eq. simpl.
    by apply bool_decide_eq_true. }
  split_and!; [done|done| |].
  - intros i fixed Hi. destruct (Hpos i fixed Hi) as (r & row & Hr & Hrow & ->).
    exists r, row. split_and!; [done|done|by rewrite lookup_insert_eq|].
    intros k Hk. by rewrite lookup_insert_ne.
  - intros headers batch values s Hrows. split; [by eapply Hmatch|].
    apply applyResults_all_matched. by eapply Hmatch.
Qed.

Lemma row_index_overwritten_positionally_witness :
  ∃ fixedRows,
    Backend.rewriteBatch
      [Backend.mkInputRow 3 ∅ (lit "shorter"); Backend.mkInputRow 7 ∅ (lit "clearer")]
      (Some [ {[ lit "row_index" := VNum 99 ]}; {[ lit "row_index" := VStr (lit "x") ]} ])
    = CodeTs.Ok fixedRows
    ∧ (fixedRows !! 0) ≫= (λ fixed, fixed !! lit "row_index") = Some (VNum 3)
    ∧ (fixedRows !! 1) ≫= (λ fixed, fixed !! lit "row_index") = Some (VNum 7).
Proof.
  destruct (row_index_overwritten_positionally
              [Backend.mkInputRow 3 ∅ (lit "shorter"); Backend.mkInputRow 7 ∅ (lit "clearer")]
              [ {[ lit "row_index" := VNum 99 ]}; {[ lit "row_index" := VStr (lit "x") ]} ])
    as (fixedRows & Hrun & Hl & Hpos & _).
  - simpl. lia.
  - exists fixedRows. split; [exact Hrun|].
    destruct fixedRows as [|f0 [|f1 [|]]]; try discriminate Hl.
    destruct (Hpos 0 f0 eq_refl) as (r0 & ? & Hr0 & _ & H0 & _).
    destruct (Hpos 1 f1 eq_refl) as (r1 & ? & Hr1 & _ & H1 & _).
    injection Hr0 as <-. injection Hr1 as <-. simpl. by rewrite H0, H1.
Defined.

(** ** The revision run *)


Section RunLemmas.

Variable fetch : nat → CodeTs.FetchResult.
Variable parse : list N → CodeTs.ParsedBody.
Variables (values : list (list (list N))) (headers : list (list N)).

Local Abbreviation call := (CodeTs.callBackendAPIBatch fetch parse).

Lemma matched_in_batch batch r :
  RunSpec.matched batch r = true ↔ RunSpec.in_batch batch r.
Proof.
  unfold RunSpec.matched, RunSpec.in_batch. rewrite bool_decide_eq_true.
  induction batch as [|b batch IH]; simpl.
  - split; [by intros [? ?]|]. intros (b & Hb & _). by apply elem_of_nil in Hb.
  - destruct (CodeTs.same_index b r) eqn:Hs.
    + split; [|by eexists]. intros _. exists b. split; [by left|].
      unfold CodeTs.same_index in Hs.
      destruct (r !! lit "row_index") as [[| | |z|]|]; try done.
      by apply bool_decide_eq_true in Hs as ->.
    + rewrite IH. split.
      * intros (b' & Hb' & E). exists b'. split; [by right|done].
      * intros (b' & Hb' & E). apply elem_of_cons in Hb' as [->|Hb'].
        -- unfold CodeTs.same_index in Hs. rewrite E in Hs.
           by rewrite bool_decide_eq_true_2 in Hs.
        -- by exists b'.
Qed.

Lemma applyResult_unmatched batch s r :
  RunSpec.matched batch r = false →
  CodeTs.applyResult values headers batch s r = s.
Proof.
  unfold RunSpec.matched. intros H. apply bool_decide_eq_false in H.
  unfold CodeTs.applyResult.
  destruct (find _ batch); [|done]. exfalso. apply H. by eexists.
Qed.

Lemma applyResult_backlog batch s r :
  CodeTs.backlog (CodeTs.applyResult values headers batch s r) = CodeTs.backlog s.
Proof. unfold CodeTs.applyResult. by destruct (find _ batch). Qed.

Lemma applyResults_dest batch rows s :
  CodeTs.dest (fold_left (CodeTs.applyResult values headers batch) rows s)
  = CodeTs.dest s
    ++ (CodeTs.buildRow headers <$> filter (λ r, RunSpec.matched batch r = true) rows).
Proof.
  revert s. induction rows as [|r rows IH]; intros s; simpl.
  - by rewrite app_nil_r.
  - rewrite IH. destruct (RunSpec.matched batch r) eqn:Hm.
    + rewrite filter_cons_True by done.
      rewrite applyResult_matched by by apply bool_decide_eq_true in Hm.
      by rewrite <- app_assoc.
    + rewrite filter_cons_False by (by rewrite Hm).
      by rewrite applyResult_unmatched.
Qed.

Lemma applyResults_backlog batch rows s :
  CodeTs.backlog (fold_left (CodeTs.applyResult values headers batch) rows s)
  = CodeTs.backlog s.
Proof.
  revert s. induction rows as [|r rows IH]; intros s; simpl; [done|].
  by rewrite IH, applyResult_backlog.
Qed.

Lemma copyOriginals_dest batch s :
  CodeTs.dest (fold_left CodeTs.copyOriginal batch s)
  = CodeTs.dest s ++ RunSpec.originals batch.
Proof.
  revert s. induction batch as [|b batch IH]; intros s; simpl.
  - by rewrite app_nil_r.
  - rewrite IH. simpl. by rewrite <- app_assoc.
Qed.

Lemma copyOriginals_backlog batch s :
  CodeTs.backlog (fold_left CodeTs.copyOriginal batch s) = CodeTs.backlog s.
Proof.
  revert s. induction batch as [|b batch IH]; intros s; simpl; [done|].
  by rewrite IH.
Qed.

Lemma processBatch_dest nbatches i batch s :
  CodeTs.dest (CodeTs.processBatch fetch parse values headers nbatches i batch s)
  = CodeTs.dest s ++ RunSpec.batch_rows headers batch (call i).2.
Proof.
  unfold CodeTs.processBatch. destruct (call i) as [entries [rows|msg]]; simpl.
  - by rewrite applyResults_dest.
  - by rewrite copyOriginals_dest.
Qed.

Lemma processBatch_backlog nbatches i batch s :
  CodeTs.backlog (CodeTs.processBatch fetch parse values headers nbatches i batch s)
  = CodeTs.backlog s ++ RunSpec.batch_log nbatches i (call i).
Proof.
  unfold CodeTs.processBatch, RunSpec.batch_log.
  destruct (call i) as [entries [rows|msg]]; simpl.
  - rewrite applyResults_backlog. simpl. by rewrite <- !app_assoc.
  - rewrite copyOriginals_backlog. simpl. by rewrite <- !app_assoc.
Qed.

Lemma processBatches_dest nbatches i batches s :
  CodeTs.dest (CodeTs.processBatches fetch parse values headers nbatches i batches s)
  = CodeTs.dest s
    ++ concat (imap (λ j batch, RunSpec.batch_rows headers batch (call (i + j)).2) batches).
Proof.
  revert i s. induction batches as [|batch batches IH]; intros i s.
  - simpl. by rewrite app_nil_r.
  - cbn [CodeTs.processBatches]. rewrite IH, processBatch_dest, <- app_assoc.
    rewrite imap_cons. cbn [concat]. rewrite Nat.add_0_r. do 3 f_equal.
    apply imap_ext. intros j b _. unfold compose.
    by replace (i + S j) with (S i + j) by lia.
Qed.

Lemma processBatches_backlog nbatches i batches s :
  CodeTs.backlog (CodeTs.processBatches fetch parse values headers nbatches i batches s)
  = CodeTs.backlog s
    ++ concat (imap (λ j _, RunSpec.batch_log nbatches (i + j) (call (i + j))) batches).
Proof.
  revert i s. induction batches as [|batch batches IH]; intros i s.
  - simpl. by rewrite app_nil_r.
  - cbn [CodeTs.processBatches]. rewrite IH, processBatch_backlog, <- app_assoc.
    rewrite imap_cons. cbn [concat]. rewrite Nat.add_0_r. do 3 f_equal.
    apply imap_ext. intros j b _. unfold compose.
    by replace (i + S j) with (S i + j) by lia.
Qed.

End RunLemmas.

Lemma appendRows_dest (rs : list (list (list N))) s :
  CodeTs.dest (fold_left (λ s (r : list (list N)), CodeTs.appendRow (VStr <$> r) s) rs s)
  = CodeTs.dest s ++ ((λ r : list (list N), VStr <$> r) <$> rs).
Proof.
  revert s. induction rs as [|r rs IH]; intros s; simpl.
  - by rewrite app_nil_r.
  - rewrite IH. simpl. by rewrite <- app_assoc.
Qed.

Lemma appendRows_backlog (rs : list (list (list N))) s :
  CodeTs.backlog (fold_left (λ s (r : list (list N)), CodeTs.appendRow (VStr <$> r) s) rs s)
  = CodeTs.backlog s.
Proof.
  revert s. induction rs as [|r rs IH]; intros s; simpl; [done|]. by rewrite IH.
Qed.

Lemma cleanup_dest maxRows maxCols totalCols s :
  CodeTs.dest (CodeTs.cleanup maxRows maxCols totalCols s) = CodeTs.dest s.
Proof.
  unfold CodeTs.cleanup.
  destruct (length (CodeTs.dest s) <? maxRows), (totalCols <? maxCols); done.
Qed.

Lemma cleanup_backlog maxRows maxCols totalCols s :
  ∃ post,
    CodeTs.backlog (CodeTs.cleanup maxRows maxCols totalCols s) = CodeTs.backlog s ++ post
    ∧ Forall (λ e, CodeTs.log_type e = CodeTs.INFO) post.
Proof.
  unfold CodeTs.cleanup.
  destruct (length (CodeTs.dest s) <? maxRows), (totalCols <? maxCols); simpl;
    eexists; (split; [try rewrite <- app_assoc; try reflexivity; symmetry; apply app_nil_r|]);
    repeat constructor.
Qed.

(** The shape of a completed run: the destination sheet is the header, the
    rows of the batches in batch order, then the rows without a comment; the
    log is the entries of the batches between two runs of INFO entries. *)
Lemma run_closed_form fetch parse name destExisted maxRows maxCols headers rows batches :
  CodeTs.chunkArray (CodeTs.collect headers 1 rows) CodeTs.BATCH_SIZE = Some batches →
  ∃ s pre post,
    CodeTs.rewriteAllCommentedRows fetch parse name destExisted maxRows maxCols
      (headers :: rows) = CodeTs.Completed s
    ∧ CodeTs.dest s
      = [VStr <$> headers]
        ++ concat (imap (λ j batch,
             RunSpec.batch_rows headers batch (CodeTs.callBackendAPIBatch fetch parse j).2)
             batches)
        ++ ((λ r : list (list N), VStr <$> r) <$> CodeTs.uncommented headers rows)
    ∧ CodeTs.backlog s
      = pre
        ++ concat (imap (λ j _,
             RunSpec.batch_log (length batches) j (CodeTs.callBackendAPIBatch fetch parse j))
             batches)
        ++ post
    ∧ Forall (λ e, CodeTs.log_type e = CodeTs.INFO) pre
    ∧ Forall (λ e, CodeTs.log_type e = CodeTs.INFO) post.
Proof.
  intros Hchunk. unfold CodeTs.rewriteAllCommentedRows. rewrite Hchunk.
  match goal with
  | |- context [CodeTs.processBatches _ _ _ _ _ _ _ ?s6] => remember s6 as S6 eqn:HS6
  end.
  assert (HdS6 : CodeTs.dest S6 = [VStr <$> headers])
    by (subst S6; by destruct destExisted).
  assert (HlS6 : Forall (λ e, CodeTs.log_type e = CodeTs.INFO) (CodeTs.backlog S6))
    by (subst S6; destruct destExisted; repeat constructor).
  clear HS6.
  match goal with
  | |- context [CodeTs.cleanup ?a ?b ?c ?s] =>
      destruct (cleanup_backlog a b c s) as (post & Hpost & Hinfo);
      pose proof (cleanup_dest a b c s) as Hdest;
      remember (CodeTs.cleanup a b c s) as S9 eqn:HS9
  end.
  clear HS9.
  eexists _, (CodeTs.backlog S6), (post ++ [_]). split; [reflexivity|].
  split_and!.
  - cbn [CodeTs.dest CodeTs.logToBacklog].
    by rewrite Hdest, appendRows_dest, processBatches_dest, HdS6, <- app_assoc.
  - cbn [CodeTs.backlog CodeTs.logToBacklog].
    rewrite Hpost, appendRows_backlog, processBatches_backlog.
    by rewrite <- !app_assoc.
  - done.
  - apply Forall_app. split; [done|]. repeat constructor.
Qed.

Lemma chunkArray_closed {T} (rows : list T) (B : nat) :
  1 ≤ B →
  CodeTs.chunkArray rows B
  = Some (chunk_at rows B 0 <$> seq 0 ((length rows + B - 1) / B)).
Proof.
  intros HB. unfold CodeTs.chunkArray. rewrite chunk_loop_closed by lia.
  simpl. by rewrite Nat.sub_0_r.
Qed.

Lemma filter_concat_imap {A B} (P : B → Prop) `{∀ x, Decision (P x)}
    (f : nat → A → list B) (l : list A) :
  filter P (concat (imap f l)) = concat (imap (λ j x, filter P (f j x)) l).
Proof.
  revert f. induction l as [|x l IH]; intros f; [done|].
  rewrite !imap_cons. cbn [concat]. by rewrite filter_app, IH.
Qed.

Lemma concat_imap_nil {A B} (f : nat → A → list B) (l : list A) :
  (∀ j x, l !! j = Some x → f j x = []) → concat (imap f l) = [].
Proof.
  revert f. induction l as [|x l IH]; intros f Hf; [done|].
  rewrite imap_cons. cbn [concat]. rewrite (Hf 0 x) by done.
  apply IH. intros j y Hj. by apply (Hf (S j)).
Qed.

Lemma filter_INFO_nil (P : CodeTs.LogEntry → Prop) `{∀ e, Decision (P e)} log :
  (∀ e, P e → CodeTs.log_type e ≠ CodeTs.INFO) →
  Forall (λ e, CodeTs.log_type e = CodeTs.INFO) log → filter P log = [].
Proof.
  intros HP. induction 1 as [|e log He _ IH]; [done|].
  rewrite filter_cons_False; [done|]. intros HPe. by apply HP in HPe.
Qed.

Section CallLog.

Variable fetch : nat → CodeTs.FetchResult.
Variable parse : list N → CodeTs.ParsedBody.

Local Abbreviation call := (CodeTs.callBackendAPIBatch fetch parse).


(** A call logs its request, and its response only when it succeeds. *)
Lemma call_entries j :
  (call j).1
  = request_entry
    :: match (call j).2 with
       | CodeTs.Ok _ =>
           [CodeTs.mkLog CodeTs.API_RESPONSE (-1) (lit "SUCCESS")
              (lit "Received response from Backend API")]
       | CodeTs.Throw _ => []
       end.
Proof.
  unfold CodeTs.callBackendAPIBatch.
  destruct (fetch j) as [msg|statusCode responseText]; [done|].
  destruct (300 <=? statusCode); [done|].
  by destruct (parse responseText).
Qed.

Lemma call_outcome j :
  (call j).2
  = match fetch j with
    | CodeTs.FetchThrows msg => CodeTs.Throw msg
    | CodeTs.FetchResponse statusCode responseText =>
        if 300 <=? statusCode then
          CodeTs.Throw (lit "Backend API error (" ++ show_nat statusCode ++ lit "): "
                        ++ responseText)
        else
          match parse responseText with
          | CodeTs.BodySyntaxError msg => CodeTs.Throw msg
          | CodeTs.BodyNotSuccess => CodeTs.Throw (lit "Backend API returned error")
          | CodeTs.BodyTypeError msg => CodeTs.Throw msg
          | CodeTs.BodyRows rows => CodeTs.Ok rows
          end
    end.
Proof.
  unfold CodeTs.callBackendAPIBatch.
  destruct (fetch j) as [msg|statusCode responseText]; [done|].
  destruct (300 <=? statusCode); [done|].
  by destruct (parse responseText).
Qed.

(** The ways a call fails: the fetch raises, the status is 300 or more, or
    the body is not a successful answer with rows. *)
Lemma call_fails j msg :
  (call j).2 = CodeTs.Throw msg ↔
  fetch j = CodeTs.FetchThrows msg
  ∨ ∃ statusCode responseText,
      fetch j = CodeTs.FetchResponse statusCode responseText
      ∧ (300 ≤ statusCode
           ∧ msg = lit "Backend API error (" ++ show_nat statusCode ++ lit "): "
                   ++ responseText
         ∨ statusCode < 300
           ∧ (parse responseText = CodeTs.BodySyntaxError msg
              ∨ parse responseText = CodeTs.BodyNotSuccess
                ∧ msg = lit "Backend API returned error"
              ∨ parse responseText = CodeTs.BodyTypeError msg)).
Proof.
  rewrite call_outcome.
  destruct (fetch j) as [m|statusCode responseText].
  - split.
    + intros Hm. left. by injection Hm as ->.
    + intros [Hm|(? & ? & ? & _)]; [|done]. by injection Hm as ->.
  - destruct (300 <=? statusCode) eqn:Hcode;
      [apply Nat.leb_le in Hcode|apply Nat.leb_gt in Hcode].
    + split.
      * intros Hm. right. exists statusCode, responseText. split; [done|]. left.
        split; [done|]. by injection Hm as <-.
      * intros [?|(? & ? & Hf & [[_ ->]|[? _]])]; [done| |].
        -- by injection Hf as <- <-.
        -- injection Hf as <- <-. lia.
    + split.
      * intros Hm. right. exists statusCode, responseText. split; [done|]. right.
        split; [done|].
        destruct (parse responseText).
        -- left. by injection Hm as ->.
        -- right. left. split; [done|]. by injection Hm as <-.
        -- right. right. by injection Hm as ->.
        -- done.
      * intros [?|(? & ? & Hf & [[? _]|[_ Hp]])]; [done| |].
        -- injection Hf as <- <-. lia.
        -- injection Hf as <- <-.
           destruct Hp as [Hp|[[Hp Hmsg]|Hp]]; rewrite Hp; [done| |done].
           by rewrite Hmsg.
Qed.

Lemma requests_of_batch nbatches j :
  filter (λ e, RunSpec.is_type CodeTs.API_REQUEST e = true)
    (RunSpec.batch_log nbatches j (call j)) = [request_entry].
Proof.
  assert (Hother : ∀ ty bi st m, ty ≠ CodeTs.API_REQUEST →
            RunSpec.is_type CodeTs.API_REQUEST (CodeTs.mkLog ty bi st m) ≠ true).
  { intros ty bi st m Hty. unfold RunSpec.is_type. simpl.
    by rewrite bool_decide_eq_false_2. }
  unfold RunSpec.batch_log. rewrite call_entries.
  destruct (call j).2 as [rows|msg]; cbn [app fst snd].
  - rewrite filter_cons_False by by apply Hother.
    rewrite filter_cons_True by done.
    by rewrite !filter_cons_False, filter_nil by by apply Hother.
  - rewrite filter_cons_False by by apply Hother.
    rewrite filter_cons_True by done.
    by rewrite !filter_cons_False, filter_nil by by apply Hother.
Qed.

Lemma errors_of_batch nbatches i j :
  filter (λ e, RunSpec.is_error_of i e = true) (RunSpec.batch_log nbatches j (call j))
  = match (call j).2 with
    | CodeTs.Throw msg =>
        if decide (i = j)
        then [CodeTs.mkLog CodeTs.ERROR (Z.of_nat j) (lit "FAILED")
                (lit "Batch failed: " ++ msg)]
        else []
    | CodeTs.Ok _ => []
    end.
Proof.
  assert (Hother : ∀ ty bi st m, ty ≠ CodeTs.ERROR →
            RunSpec.is_error_of i (CodeTs.mkLog ty bi st m) ≠ true).
  { intros ty bi st m Hty. unfold RunSpec.is_error_of, RunSpec.is_type. simpl.
    by rewrite bool_decide_eq_false_2. }
  unfold RunSpec.batch_log. rewrite call_entries.
  destruct (call j).2 as [rows|msg]; cbn [app fst snd].
  - by rewrite !filter_cons_False, filter_nil by by apply Hother.
  - rewrite !(filter_cons_False _ (CodeTs.mkLog CodeTs.INFO _ _ _)) by by apply Hother.
    rewrite (filter_cons_False _ request_entry) by by apply Hother.
    destruct (decide (i = j)) as [->|Hne].
    + rewrite filter_cons_True; [done|].
      unfold RunSpec.is_error_of, RunSpec.is_type. simpl.
      by rewrite !bool_decide_eq_true_2.
    + rewrite filter_cons_False; [done|].
      unfold RunSpec.is_error_of. rewrite andb_true_iff, bool_decide_eq_true.
      simpl. intros [_ E]. lia.
Qed.

End CallLog.

Lemma appendRows_rich (rs : list (list (list N))) s :
  CodeTs.rich (fold_left (λ s (r : list (list N)), CodeTs.appendRow (VStr <$> r) s) rs s)
  = CodeTs.rich s.
Proof.
  revert s. induction rs as [|r rs IH]; intros s; simpl; [done|]. by rewrite IH.
Qed.

Lemma cleanup_rich maxRows maxCols totalCols s :
  CodeTs.rich (CodeTs.cleanup maxRows maxCols totalCols s) = CodeTs.rich s.
Proof.
  unfold CodeTs.cleanup.
  destruct (length (CodeTs.dest s) <? maxRows), (totalCols <? maxCols); done.
Qed.

Lemma collect_no_comment headers i rows :
  (∀ r, r ∈ rows → CodeTs.has_comment (CodeTs.comment_cell headers r) = false) →
  CodeTs.collect headers i rows = [] ∧ CodeTs.uncommented headers rows = rows.
Proof.
  revert i. induction rows as [|r rows IH]; intros i Hrows; [done|].
  destruct (IH (S i)) as [Hc Hu]; [intros r' Hr'; apply Hrows; by right|].
  assert (Hr : CodeTs.has_comment (CodeTs.comment_cell headers r) = false)
    by (apply Hrows; by left).
  split.
  - simpl. by rewrite Hr, Hc.
  - unfold CodeTs.uncommented in *. rewrite filter_cons_True by done. by rewrite Hu.
Qed.

(** C7. When the comment cell of every data row trims to the empty string,
    the run completes; the destination sheet is the source grid, header and
    data rows in order, with no rich-text write; there is no batch, and the
    run is the same whatever the backend would answer; the log holds INFO
    entries only, so no API_REQUEST entry. *)
Theorem run_without_comments_copies_grid fetch parse name destExisted maxRows maxCols
    (headers : list (list N)) (rows : list (list (list N))) :
  (∀ r c, r ∈ rows → r !! (length headers - 1) = Some c → trim c = []) →
  ∃ s,
    CodeTs.rewriteAllCommentedRows fetch parse name destExisted maxRows maxCols
      (headers :: rows) = CodeTs.Completed s
    ∧ CodeTs.dest s = (λ r : list (list N), VStr <$> r) <$> (headers :: rows)
    ∧ CodeTs.rich s = []
    ∧ CodeTs.chunkArray (CodeTs.collect headers 1 rows) CodeTs.BATCH_SIZE = Some []
    ∧ (∀ fetch' parse',
         CodeTs.rewriteAllCommentedRows fetch' parse' name destExisted maxRows maxCols
           (headers :: rows) = CodeTs.Completed s)
    ∧ Forall (λ e, CodeTs.log_type e = CodeTs.INFO) (CodeTs.backlog s)
    ∧ filter (λ e, RunSpec.is_type CodeTs.API_REQUEST e = true) (CodeTs.backlog s) = [].
Proof.
  intros Hrows.
  assert (Hnone : ∀ r, r ∈ rows →
            CodeTs.has_comment (CodeTs.comment_cell headers r) = false).
  { intros r Hr. unfold CodeTs.comment_cell.
    destruct (length headers) as [|c] eqn:Hlen; [done|].
    destruct (r !! c) as [cell|] eqn:Hcell; [|done].
    simpl. rewrite (bool_decide_eq_true_2 (trim cell = [])); [by rewrite andb_false_r|].
    apply (Hrows r cell Hr). by replace (S c - 1) with c by lia. }
  destruct (collect_no_comment headers 1 rows Hnone) as [Hcollect Hunc].
  assert (Hchunk : CodeTs.chunkArray (CodeTs.collect headers 1 rows) CodeTs.BATCH_SIZE
                   = Some []) by by rewrite Hcollect.
  destruct (run_closed_form fetch parse name destExisted maxRows maxCols
              headers rows [] Hchunk)
    as (s & pre & post & Hrun & Hdest & Hlog & Hpre & Hpost).
  assert (Hinfo : Forall (λ e, CodeTs.log_type e = CodeTs.INFO) (CodeTs.backlog s)).
  { rewrite Hlog. simpl. by apply Forall_app. }
  exists s. split_and!; [done| | |done| |done|].
  - rewrite Hdest, Hunc. done.
  - unfold CodeTs.rewriteAllCommentedRows in Hrun. rewrite Hchunk in Hrun.
    injection Hrun as <-. cbn [CodeTs.rich CodeTs.logToBacklog].
    rewrite cleanup_rich, appendRows_rich. by destruct destExisted.
  - intros fetch' parse'. rewrite <- Hrun.
    unfold CodeTs.rewriteAllCommentedRows. by rewrite Hchunk.
  - apply filter_INFO_nil; [|done]. intros e He.
    unfold RunSpec.is_type in He. apply bool_decide_eq_true in He. by rewrite He.
Qed.

Lemma run_without_comments_copies_grid_witness :
  ∃ s,
    CodeTs.rewriteAllCommentedRows (λ _, CodeTs.FetchThrows []) (λ _, CodeTs.BodyNotSuccess)
      (lit "VER1") false 1000 26
      [[lit "No"; lit "Title"; lit "Comment"];
       [lit "1"; lit "Draft A"; lit ""];
       [lit "2"; lit "Draft B"; lit "  "]] = CodeTs.Completed s
    ∧ CodeTs.dest s
      = [[VStr (lit "No"); VStr (lit "Title"); VStr (lit "Comment")];
         [VStr (lit "1"); VStr (lit "Draft A"); VStr (lit "")];
         [VStr (lit "2"); VStr (lit "Draft B"); VStr (lit "  ")]].
Proof.
  destruct (run_without_comments_copies_grid
              (λ _, CodeTs.FetchThrows []) (λ _, CodeTs.BodyNotSuccess)
              (lit "VER1") false 1000 26
              [lit "No"; lit "Title"; lit "Comment"]
              [[lit "1"; lit "Draft A"; lit ""]; [lit "2"; lit "Draft B"; lit "  "]])
    as (s & Hrun & Hdest & _).
  - intros r c Hr. apply elem_of_cons in Hr as [->|Hr].
    + intros [= <-]. vm_compute. reflexivity.
    + apply elem_of_cons in Hr as [->|Hr].
      * intros [= <-]. vm_compute. reflexivity.
      * by apply elem_of_nil in Hr.
  - exists s. split; [exact Hrun|exact Hdest].
Defined.

Lemma elem_of_concat_imap {A B} (f : nat → A → list B) (l : list A) j x e :
  l !! j = Some x → e ∈ f j x → e ∈ concat (imap f l).
Proof.
  revert f j. induction l as [|y l IH]; intros f j Hj He; [done|].
  rewrite imap_cons. cbn [concat]. apply elem_of_app.
  destruct j as [|j]; simpl in Hj.
  - injection Hj as ->. by left.
  - right. by apply (IH (f ∘ S) j).
Qed.

Lemma length_concat_imap_singleton {A B} (x : B) (l : list A) :
  length (concat (imap (λ _ _, [x]) l)) = length l.
Proof.
  change (λ (_ : nat) (_ : A), [x]) with (@const (A → list B) nat (λ _, [x])).
  rewrite imap_const. induction l as [|y l IH]; [done|].
  rewrite fmap_cons. cbn [concat]. rewrite length_app, IH. done.
Qed.

Lemma concat_imap_middle {A B} (f : nat → A → list B) (l : list A) i x :
  l !! i = Some x →
  concat (imap f l)
  = concat (imap f (take i l)) ++ f i x
    ++ concat (imap (λ j, f (S i + j)) (drop (S i) l)).
Proof.
  intros Hi. rewrite <- (take_drop_middle l i x Hi) at 1.
  rewrite imap_app, concat_app, imap_cons. cbn [concat].
  assert (Hlen : length (take i l) = i).
  { rewrite length_take. apply lookup_lt_Some in Hi. lia. }
  rewrite Hlen, Nat.add_0_r. do 3 f_equal.
  apply imap_ext. intros j y _. unfold compose.
  by replace (i + S j) with (S i + j) by lia.
Qed.

Lemma chunkArray_concat {T} (rows : list T) (B : nat) batches :
  1 ≤ B → CodeTs.chunkArray rows B = Some batches → concat batches = rows.
Proof.
  intros HB Hc. rewrite chunkArray_closed in Hc by done. injection Hc as <-.
  rewrite concat_chunks. simpl. apply take_ge.
  destruct (ceil_bounds B (length rows) HB). lia.
Qed.


(** A collected row is the row of the grid at its [rowIndex]. *)
Lemma collect_source_rows headers i rows item :
  item ∈ CodeTs.collect headers i rows →
  i < CodeTs.rowIndex item
  ∧ rows !! (CodeTs.rowIndex item - 1 - i) = Some (CodeTs.row item).
Proof.
  revert i. induction rows as [|r rows IH]; intros i Hin; [by apply elem_of_nil in Hin|].
  simpl in Hin. apply elem_of_app in Hin as [Hin|Hin].
  - destruct (CodeTs.has_comment _); [|by apply elem_of_nil in Hin].
    apply list_elem_of_singleton in Hin as ->. simpl.
    split; [lia|]. by replace (i + 1 - 1 - i) with 0 by lia.
  - destruct (IH (S i) Hin) as [Hlt Hrow]. split; [lia|].
    replace (CodeTs.rowIndex item - 1 - i) with (S (CodeTs.rowIndex item - 1 - S i)) by lia.
    done.
Qed.

Lemma batch_source_rows {T} (batches : list (list T)) i batch item :
  batches !! i = Some batch → item ∈ batch → item ∈ concat batches.
Proof.
  intros Hi Hin. apply list_elem_of_lookup_2 in Hi.
  apply list_elem_of_In. apply in_concat. exists batch.
  split; by apply list_elem_of_In.
Qed.

(** C1. When the call for batch [i] fails with message [msg], the run still
    completes.  The destination sheet is the header, the rows of the batches
    before [i], the rows of batch [i] with their original values, the rows
    of the batches after [i] as their own calls decide, and the rows
    without a comment; every row of batch [i] is the row of the source grid
    at its row number.  The log holds exactly one ERROR entry for batch [i],
    whose message ends with [msg]; it holds one API_REQUEST entry per batch
    and the BATCH_START entry of every batch. *)
Theorem failed_batch_is_copied_and_run_continues fetch parse name destExisted
    maxRows maxCols (headers : list (list N)) (rows : list (list (list N)))
    batches i batch msg :
  CodeTs.chunkArray (CodeTs.collect headers 1 rows) CodeTs.BATCH_SIZE = Some batches →
  batches !! i = Some batch →
  (CodeTs.callBackendAPIBatch fetch parse i).2 = CodeTs.Throw msg →
  ∃ s,
    CodeTs.rewriteAllCommentedRows fetch parse name destExisted maxRows maxCols
      (headers :: rows) = CodeTs.Completed s
    ∧ CodeTs.dest s
      = [VStr <$> headers]
        ++ concat (imap (λ j b,
             RunSpec.batch_rows headers b (CodeTs.callBackendAPIBatch fetch parse j).2)
             (take i batches))
        ++ RunSpec.originals batch
        ++ concat (imap (λ j b,
             RunSpec.batch_rows headers b (CodeTs.callBackendAPIBatch fetch parse (S i + j)).2)
             (drop (S i) batches))
        ++ ((λ r : list (list N), VStr <$> r) <$> CodeTs.uncommented headers rows)
    ∧ (∀ item, item ∈ batch →
         (headers :: rows) !! (CodeTs.rowIndex item - 1) = Some (CodeTs.row item))
    ∧ filter (λ e, RunSpec.is_error_of i e = true) (CodeTs.backlog s)
      = [CodeTs.mkLog CodeTs.ERROR (Z.of_nat i) (lit "FAILED") (lit "Batch failed: " ++ msg)]
    ∧ length (filter (λ e, RunSpec.is_type CodeTs.API_REQUEST e = true) (CodeTs.backlog s))
      = length batches
    ∧ ∀ j, j < length batches →
        CodeTs.mkLog CodeTs.INFO (Z.of_nat j) (lit "BATCH_START")
          (lit "Processing batch " ++ show_nat (j + 1) ++ lit "/"
           ++ show_nat (length batches))
        ∈ CodeTs.backlog s.
Proof.
  intros Hchunk Hi Hfail.
  destruct (run_closed_form fetch parse name destExisted maxRows maxCols
              headers rows batches Hchunk)
    as (s & pre & post & Hrun & Hdest & Hlog & Hpre & Hpost).
  exists s. split_and!; [done| | | | |].
  - rewrite Hdest, (concat_imap_middle _ batches i batch Hi), Hfail.
    simpl. by rewrite <- !app_assoc.
  - intros item Hitem.
    assert (Hin : item ∈ CodeTs.collect headers 1 rows).
    { rewrite <- (chunkArray_concat _ CodeTs.BATCH_SIZE batches);
        [by eapply batch_source_rows|unfold CodeTs.BATCH_SIZE; lia|done]. }
    apply collect_source_rows in Hin as [Hlt Hrow].
    rewrite lookup_cons_ne_0 by lia.
    by replace (pred (CodeTs.rowIndex item - 1)) with (CodeTs.rowIndex item - 1 - 1) by lia.
  - assert (Herr : ∀ e, RunSpec.is_error_of i e = true →
                         CodeTs.log_type e ≠ CodeTs.INFO).
    { intros e He. unfold RunSpec.is_error_of, RunSpec.is_type in He.
      apply andb_true_iff in He as [He _]. apply bool_decide_eq_true in He.
      by rewrite He. }
    rewrite Hlog, !filter_app.
    rewrite (filter_INFO_nil _ pre Herr Hpre), (filter_INFO_nil _ post Herr Hpost).
    rewrite app_nil_r. simpl.
    rewrite filter_concat_imap.
    rewrite (concat_imap_middle _ batches i batch Hi).
    rewrite !concat_imap_nil.
    + rewrite errors_of_batch, Hfail, decide_True by done. done.
    + intros j b Hj. rewrite errors_of_batch.
      destruct (CodeTs.callBackendAPIBatch fetch parse (S i + j)).2; [done|].
      rewrite decide_False by lia. done.
    + intros j b Hj. apply lookup_take_Some in Hj as [_ Hlt].
      rewrite errors_of_batch.
      destruct (CodeTs.callBackendAPIBatch fetch parse j).2; [done|].
      rewrite decide_False by lia. done.
  - assert (Hreq : ∀ e, RunSpec.is_type CodeTs.API_REQUEST e = true →
                         CodeTs.log_type e ≠ CodeTs.INFO).
    { intros e He. unfold RunSpec.is_type in He.
      apply bool_decide_eq_true in He. by rewrite He. }
    rewrite Hlog, !filter_app.
    rewrite (filter_INFO_nil _ pre Hreq Hpre), (filter_INFO_nil _ post Hreq Hpost).
    rewrite app_nil_r. simpl.
    rewrite filter_concat_imap.
    rewrite (imap_ext _ (λ _ _, [request_entry])).
    + apply length_concat_imap_singleton.
    + intros j b _. apply requests_of_batch.
  - intros j Hj. rewrite Hlog.
    destruct (lookup_lt_is_Some_2 batches j Hj) as [b Hb].
    apply elem_of_app. right. apply elem_of_app. left.
    apply (elem_of_concat_imap _ batches j b); [done|].
    unfold RunSpec.batch_log. apply elem_of_app. left. apply list_elem_of_singleton. done.
Qed.


Lemma failed_batch_is_copied_and_run_continues_witness :
  ∃ s,
    CodeTs.rewriteAllCommentedRows ThreeBatches.fetch ThreeBatches.parse (lit "VER1") false 1000 26
      (ThreeBatches.headers :: ThreeBatches.rows) = CodeTs.Completed s
    ∧ filter (λ e, RunSpec.is_error_of 1 e = true) (CodeTs.backlog s)
      = [CodeTs.mkLog CodeTs.ERROR 1 (lit "FAILED") (lit "Batch failed: Timeout")]
    ∧ length (filter (λ e, RunSpec.is_type CodeTs.API_REQUEST e = true) (CodeTs.backlog s)) = 3.
Proof.
  destruct (failed_batch_is_copied_and_run_continues
              ThreeBatches.fetch ThreeBatches.parse (lit "VER1") false 1000 26
              ThreeBatches.headers ThreeBatches.rows ThreeBatches.batches 1 ThreeBatches.second
              (lit "Timeout"))
    as (s & Hrun & _ & _ & Herr & Hreq & _).
  - vm_compute. reflexivity.
  - reflexivity.
  - vm_compute. reflexivity.
  - exists s. split; [exact Hrun|]. split; [exact Herr|exact Hreq].
Defined.

(** C3. A returned row whose [row_index] is the number of no row of the
    batch leaves the state of the run as it is, and the destination sheet of
    a completed run is made of the header, the rows built from the returned
    rows that belong to their batch (or the original rows of a failed
    batch), and the rows without a comment: a row that belongs to no row of
    its batch contributes nothing. *)
Theorem unmatched_results_are_discarded fetch parse name destExisted maxRows maxCols
    (headers : list (list N)) (rows : list (list (list N))) batches :
  CodeTs.chunkArray (CodeTs.collect headers 1 rows) CodeTs.BATCH_SIZE = Some batches →
  (∀ batch r, RunSpec.matched batch r = true ↔ RunSpec.in_batch batch r)
  ∧ (∀ values batch s r,
       ¬ RunSpec.in_batch batch r → CodeTs.applyResult values headers batch s r = s)
  ∧ ∃ s,
      CodeTs.rewriteAllCommentedRows fetch parse name destExisted maxRows maxCols
        (headers :: rows) = CodeTs.Completed s
      ∧ CodeTs.dest s
        = [VStr <$> headers]
          ++ concat (imap (λ j batch,
               match (CodeTs.callBackendAPIBatch fetch parse j).2 with
               | CodeTs.Ok returned =>
                   CodeTs.buildRow headers
                     <$> filter (λ r, RunSpec.matched batch r = true) returned
               | CodeTs.Throw _ => RunSpec.originals batch
               end) batches)
          ++ ((λ r : list (list N), VStr <$> r) <$> CodeTs.uncommented headers rows).
Proof.
  intros Hchunk. split_and!.
  - apply matched_in_batch.
  - intros values batch s r Hr. apply applyResult_unmatched.
    destruct (RunSpec.matched batch r) eqn:Hm; [|done].
    by apply matched_in_batch in Hm.
  - destruct (run_closed_form fetch parse name destExisted maxRows maxCols
                headers rows batches Hchunk)
      as (s & pre & post & Hrun & Hdest & _).
    exists s. split; [done|]. by rewrite Hdest.
Qed.

Lemma unmatched_results_are_discarded_witness :
  ∃ s,
    CodeTs.rewriteAllCommentedRows
      (λ _, CodeTs.FetchResponse 200 (lit "{}"))
      (λ _, CodeTs.BodyRows [ {[ lit "row_index" := VNum 9; lit "Title" := VStr (lit "Stray") ]} ])
      (lit "VER1") false 1000 26
      [[lit "Title"; lit "Comment"]; [lit "Draft"; lit "shorter"]]
    = CodeTs.Completed s
    ∧ CodeTs.dest s = [[VStr (lit "Title"); VStr (lit "Comment")]].
Proof.
  destruct (unmatched_results_are_discarded
              (λ _, CodeTs.FetchResponse 200 (lit "{}"))
              (λ _, CodeTs.BodyRows
                      [ {[ lit "row_index" := VNum 9; lit "Title" := VStr (lit "Stray") ]} ])
              (lit "VER1") false 1000 26
              [lit "Title"; lit "Comment"] [[lit "Draft"; lit "shorter"]]
              [[CodeTs.mkCommentedRow 2 [lit "Draft"; lit "shorter"] (lit "shorter")]])
    as (_ & _ & s & Hrun & Hdest).
  - vm_compute. reflexivity.
  - exists s. split; [exact Hrun|]. rewrite Hdest. vm_compute. reflexivity.
Defined.

(** ** Building the revised row *)


(** C2. On the grid of the scenario the answer for the commented row has a
    [Title] field and no [No] field.  The script builds and appends the row
    with the empty string in the [No] column, where the source row holds
    "2" (and with the empty string in the comment column); the guide's
    script leaves "2" there and replaces the title only. *)
Theorem missing_field_is_written_empty :
  CodeTs.buildRow Scenario.headers Scenario.update
    = [VStr []; VStr (lit "Draft B!!"); VStr []]
  ∧ Scenario.values !! 2 = Some [lit "2"; lit "Draft B"; lit "make punchier"]
  ∧ (∃ s,
       CodeTs.rewriteAllCommentedRows Scenario.fetch Scenario.parse (lit "VER1") false
         1000 26 Scenario.values = CodeTs.Completed s
       ∧ CodeTs.dest s !! 1 = Some [VStr []; VStr (lit "Draft B!!"); VStr []])
  ∧ (Guide.applyUpdates Scenario.values Scenario.headers
       (Guide.copySheet Scenario.values) [Scenario.update]).1 !! 2
    = Some [(lit "2", []); (lit "Draft B!!", [(7, 8); (8, 9)]); (lit "make punchier", [])].
Proof.
  split_and!.
  - vm_compute. reflexivity.
  - reflexivity.
  - eexists. split; vm_compute; reflexivity.
  - vm_compute. reflexivity.
Qed.

(** * Further properties of the code *)

(** ** Version names: [parseInt], [generateNextVersion], [detectSourceSheet] *)

Lemma parseInt_acc (ds : list N) (acc : N) :
  fold_left (λ acc d, acc * 10 + (d - 48))%N ds acc
  = (acc * 10 ^ N.of_nat (length ds) + CodeTs.parseInt ds)%N.
Proof.
  unfold CodeTs.parseInt. revert acc. induction ds as [|d ds IH]; intros acc.
  - simpl. lia.
  - cbn [fold_left length]. rewrite IH, (IH (0 * 10 + (d - 48))%N).
    rewrite Nat2N.inj_succ, N.pow_succ_r'. lia.
Qed.

Lemma lit_String c s : lit (String c s) = Ascii.N_of_ascii c :: lit s.
Proof. reflexivity. Qed.

Lemma digit_code d : (d < 10)%N → Ascii.N_of_ascii (pretty_N_char d) = (48 + d)%N.
Proof.
  intros Hd.
  assert (d = 0 ∨ d = 1 ∨ d = 2 ∨ d = 3 ∨ d = 4 ∨ d = 5 ∨ d = 6 ∨ d = 7
          ∨ d = 8 ∨ d = 9)%N as Hcases by lia.
  repeat destruct Hcases as [->|Hcases]; try subst d; reflexivity.
Qed.

Lemma pretty_go_digits x s :
  forallb CodeTs.is_digit (lit s) = true →
  forallb CodeTs.is_digit (lit (pretty_N_go x s)) = true
  ∧ CodeTs.parseInt (lit (pretty_N_go x s))
    = (x * 10 ^ N.of_nat (length (lit s)) + CodeTs.parseInt (lit s))%N.
Proof.
  revert s. induction (N.lt_wf_0 x) as [x _ IH]; intros s Hs.
  destruct (decide (x = 0)%N) as [->|Hx].
  - rewrite pretty_N_go_0. split; [done|lia].
  - rewrite pretty_N_go_step by lia.
    assert (Hd : (x `mod` 10 < 10)%N) by (apply N.mod_lt; lia).
    assert (Hlt : (x `div` 10 < x)%N) by (apply N.div_lt; lia).
    pose proof (N.div_mod x 10 ltac:(lia)) as Hdm.
    revert Hd Hlt Hdm. generalize (x `mod` 10)%N (x `div` 10)%N. intros d q Hd Hlt Hdm.
    destruct (IH q Hlt (String (pretty_N_char d) s)) as [Hall Hval].
    { rewrite lit_String, digit_code by done. cbn [forallb]. rewrite Hs.
      unfold CodeTs.is_digit.
      destruct (N.leb_spec 48 (48 + d)), (N.leb_spec (48 + d) 57);
        simpl; try done; exfalso; lia. }
    split; [done|]. rewrite Hval, lit_String, digit_code by done.
    unfold CodeTs.parseInt at 1. cbn [fold_left length]. rewrite parseInt_acc.
    rewrite Nat2N.inj_succ, N.pow_succ_r'.
    replace (0 * 10 + (48 + d - 48))%N with d by lia.
    generalize (10 ^ N.of_nat (length (lit s)))%N (CodeTs.parseInt (lit s)).
    intros p v. nia.
Qed.

(** Printing a number and reading it back gives the number; the printed
    text is a non-empty string of digits. *)
Lemma show_N_parse n :
  CodeTs.parseInt (CodeTs.show_N n) = n
  ∧ forallb CodeTs.is_digit (CodeTs.show_N n) = true
  ∧ CodeTs.show_N n ≠ [].
Proof.
  unfold CodeTs.show_N, pretty, pretty_N.
  destruct (decide (n = 0)%N) as [->|Hn]; [by split_and!|].
  destruct (pretty_go_digits n "" eq_refl) as [Hall Hval].
  change (lit "") with (@nil N) in Hval.
  change (CodeTs.parseInt []) with 0%N in Hval.
  change (N.of_nat (length (@nil N))) with 0%N in Hval.
  rewrite N.pow_0_r in Hval.
  split_and!; [lia|done|].
  intros Hnil. rewrite Hnil in Hval.
  change (CodeTs.parseInt []) with 0%N in Hval. lia.
Qed.

Lemma match_VER_show n :
  CodeTs.match_VER (lit "VER" ++ CodeTs.show_N n) = Some (CodeTs.show_N n).
Proof.
  destruct (show_N_parse n) as (_ & Hall & Hne).
  rewrite lit_VER. cbn [app CodeTs.match_VER].
  rewrite Hall, (bool_decide_eq_false_2 _ Hne). reflexivity.
Qed.

(** X1. The next version name always is a versioned name; its number is one
    more than the number of the current name, a name that is not versioned
    counting as number 1. *)
Theorem next_version_number (name : list N) :
  (∀ k, Version.number name = Some k → (k < Version.safe)%N) →
  Version.number (CodeTs.generateNextVersion name)
  = Some (default 1%N (Version.number name) + 1)%N.
Proof.
  intros _. unfold Version.number, CodeTs.generateNextVersion.
  destruct (CodeTs.match_VER name) as [ds|].
  - rewrite match_VER_show. cbn [fmap option_fmap option_map default].
    f_equal. apply show_N_parse.
  - vm_compute. reflexivity.
Qed.

Lemma next_version_number_witness :
  Version.number (CodeTs.generateNextVersion (lit "ver009")) = Some 10%N.
Proof.
  apply (next_version_number (lit "ver009")).
  intros k Hk. vm_compute in Hk. injection Hk as <-. reflexivity.
Defined.

Lemma number_Whitepaper_Plans : Version.number (lit "Whitepaper Plans") = None.
Proof. reflexivity. Qed.

Lemma scan_inv_step l sc x :
  Version.scan_inv l sc → Version.scan_inv (l ++ [x]) (CodeTs.scan_sheet sc x).
Proof.
  intros [Hver Hwp].
  assert (Hwp' : ∀ sc1, CodeTs.whitepaperPlansSheet sc1 = CodeTs.whitepaperPlansSheet sc →
     CodeTs.whitepaperPlansSheet
       (if bool_decide (x = lit "Whitepaper Plans")
        then CodeTs.mkScan (CodeTs.highestVer sc1) (CodeTs.highestVerSheet sc1) (Some x)
        else sc1)
     = if decide (lit "Whitepaper Plans" ∈ l ++ [x])
       then Some (lit "Whitepaper Plans") else None).
  { intros sc1 E. case_bool_decide as Hx.
    - subst x. simpl. rewrite decide_True; [done|]. apply elem_of_app. right. by left.
    - rewrite E, Hwp.
      destruct (decide (lit "Whitepaper Plans" ∈ l)) as [Hin|Hin].
      + rewrite decide_True; [done|]. apply elem_of_app. by left.
      + rewrite decide_False; [done|]. intros Hin'.
        apply elem_of_app in Hin' as [?|Hin']; [done|].
        apply list_elem_of_singleton in Hin'. done. }
  assert (Hkeep : ∀ sc1,
     CodeTs.highestVerSheet
       (if bool_decide (x = lit "Whitepaper Plans")
        then CodeTs.mkScan (CodeTs.highestVer sc1) (CodeTs.highestVerSheet sc1) (Some x)
        else sc1) = CodeTs.highestVerSheet sc1
     ∧ CodeTs.highestVer
       (if bool_decide (x = lit "Whitepaper Plans")
        then CodeTs.mkScan (CodeTs.highestVer sc1) (CodeTs.highestVerSheet sc1) (Some x)
        else sc1) = CodeTs.highestVer sc1).
  { intros sc1. by case_bool_decide. }
  unfold Version.scan_inv, CodeTs.scan_sheet.
  destruct (CodeTs.match_VER x) as [ds|] eqn:Hm.
  - assert (Hnum : Version.number x = Some (CodeTs.parseInt ds))
      by (unfold Version.number; by rewrite Hm).
    destruct (N.ltb_spec (CodeTs.highestVer sc) (CodeTs.parseInt ds)) as [Hlt|Hge].
    + split; [|by apply Hwp'].
      destruct (Hkeep (CodeTs.mkScan (CodeTs.parseInt ds) (Some x)
                         (CodeTs.whitepaperPlansSheet sc))) as [-> ->].
      simpl. exists (length l). split_and!.
      * by rewrite lookup_app_r, Nat.sub_diag by lia.
      * done.
      * lia.
      * intros name k Hin Hk. apply elem_of_app in Hin as [Hin|Hin].
        -- destruct (CodeTs.highestVerSheet sc) as [s|].
           ++ destruct Hver as (i & _ & _ & _ & Hmax & _).
              specialize (Hmax name k Hin Hk). lia.
           ++ destruct Hver as [H0 Hnone]. rewrite (Hnone name k Hin Hk). lia.
        -- apply list_elem_of_singleton in Hin as ->.
           rewrite Hnum in Hk. injection Hk as <-. lia.
      * intros j name k Hj Hlook Hk.
        rewrite lookup_app_l in Hlook by done.
        apply list_elem_of_lookup_2 in Hlook.
        destruct (CodeTs.highestVerSheet sc) as [s|].
        -- destruct Hver as (i & _ & _ & _ & Hmax & _).
           specialize (Hmax name k Hlook Hk). lia.
        -- destruct Hver as [H0 Hnone]. rewrite (Hnone name k Hlook Hk). lia.
    + split; [|by apply Hwp'].
      destruct (Hkeep sc) as [-> ->].
      destruct (CodeTs.highestVerSheet sc) as [s|].
      * destruct Hver as (i & Hi & Hs & Hpos & Hmax & Hfirst).
        exists i. split_and!; [|done|done| |].
        -- rewrite lookup_app_l; [done|]. by eapply lookup_lt_Some.
        -- intros name k Hin Hk. apply elem_of_app in Hin as [Hin|Hin]; [by eapply Hmax|].
           apply list_elem_of_singleton in Hin as ->.
           rewrite Hnum in Hk. injection Hk as <-. lia.
        -- intros j name k Hj Hlook Hk.
           rewrite lookup_app_l in Hlook; [by eapply Hfirst|].
           apply lookup_lt_Some in Hi. lia.
      * destruct Hver as [H0 Hnone]. split; [done|].
        intros name k Hin Hk. apply elem_of_app in Hin as [Hin|Hin]; [by eapply Hnone|].
        apply list_elem_of_singleton in Hin as ->.
        rewrite Hnum in Hk. injection Hk as <-. lia.
  - assert (Hnum : Version.number x = None)
      by (unfold Version.number; by rewrite Hm).
    split; [|by apply Hwp'].
    destruct (Hkeep sc) as [-> ->].
    destruct (CodeTs.highestVerSheet sc) as [s|].
    + destruct Hver as (i & Hi & Hs & Hpos & Hmax & Hfirst).
      exists i. split_and!; [|done|done| |].
      * rewrite lookup_app_l; [done|]. by eapply lookup_lt_Some.
      * intros name k Hin Hk. apply elem_of_app in Hin as [Hin|Hin]; [by eapply Hmax|].
        apply list_elem_of_singleton in Hin as ->. congruence.
      * intros j name k Hj Hlook Hk.
        rewrite lookup_app_l in Hlook; [by eapply Hfirst|].
        apply lookup_lt_Some in Hi. lia.
    + destruct Hver as [H0 Hnone]. split; [done|].
      intros name k Hin Hk. apply elem_of_app in Hin as [Hin|Hin]; [by eapply Hnone|].
      apply list_elem_of_singleton in Hin as ->. congruence.
Qed.

Lemma scan_inv_all sheets :
  Version.scan_inv sheets (fold_left CodeTs.scan_sheet sheets (CodeTs.mkScan 0 None None)).
Proof.
  induction sheets as [|x l IH] using rev_ind.
  - split; [split; [done|]|done]. intros name k Hin. by apply elem_of_nil in Hin.
  - rewrite fold_left_app. simpl. by apply scan_inv_step.
Qed.

Lemma find_none {A} (p : A → bool) (l : list A) :
  (∀ x, x ∈ l → p x = false) → find p l = None.
Proof.
  induction l as [|x l IH]; intros Hp; [done|]. simpl.
  rewrite (Hp x) by by left. apply IH. intros y Hy. apply Hp. by right.
Qed.

Lemma detect_cases (sheets : list (list N)) :
  (∀ s n, Version.first_highest sheets s n → CodeTs.detectSourceSheet sheets = Some s)
  ∧ (Version.none_versioned sheets →
       CodeTs.detectSourceSheet sheets = Version.fallback sheets)
  ∧ ((∃ s n, Version.first_highest sheets s n) ∨ Version.none_versioned sheets).
Proof.
  destruct (scan_inv_all sheets) as [Hver Hwp].
  unfold CodeTs.detectSourceSheet.
  destruct (CodeTs.highestVerSheet _) as [s0|] eqn:Hs0.
  - split_and!.
    + intros s n (i & Hi & Hn & Hpos & Hmax & Hfirst).
      destruct Hver as (i0 & Hi0 & Hn0 & Hpos0 & Hmax0 & Hfirst0). f_equal.
      assert (n = CodeTs.highestVer
                    (fold_left CodeTs.scan_sheet sheets (CodeTs.mkScan 0 None None))).
      { apply N.le_antisymm.
        - apply (Hmax0 s n); [by apply list_elem_of_lookup_2 in Hi|done].
        - apply (Hmax s0); [by apply list_elem_of_lookup_2 in Hi0|done]. }
      subst n.
      destruct (Nat.lt_trichotomy i i0) as [Hlt|[->|Hgt]].
      * specialize (Hfirst0 i s _ Hlt Hi Hn). lia.
      * congruence.
      * specialize (Hfirst i0 s0 _ Hgt Hi0 Hn0). lia.
    + intros Hnone. destruct Hver as (i0 & Hi0 & Hn0 & Hpos0 & _).
      apply list_elem_of_lookup_2 in Hi0. specialize (Hnone _ _ Hi0 Hn0). lia.
    + left. eauto.
  - destruct Hver as [H0 Hnone]. split_and!.
    + intros s n (i & Hi & Hn & Hpos & _).
      apply list_elem_of_lookup_2 in Hi. specialize (Hnone _ _ Hi Hn). lia.
    + intros _. rewrite Hwp. unfold Version.fallback.
      destruct (decide (lit "Whitepaper Plans" ∈ sheets)); [done|].
      rewrite (find_none (λ name, bool_decide (name = lit "VER1"))); [done|].
      intros x Hx. apply bool_decide_eq_false. intros ->.
      specialize (Hnone _ 1%N Hx eq_refl). lia.
    + by right.
Qed.

(** X2. [detectSourceSheet] returns the first sheet that carries the highest
    positive version number when the workbook has one.  When no sheet has a
    positive version number it returns the sheet "Whitepaper Plans" if
    there is one, else the first sheet not named "Backlog", else the first
    sheet; a sheet numbered zero, such as "VER0", never wins as a version. *)
Theorem detectSourceSheet_chooses (sheets : list (list N)) :
  Version.numbers_safe sheets →
  (∀ s n, Version.first_highest sheets s n → CodeTs.detectSourceSheet sheets = Some s)
  ∧ (Version.none_versioned sheets →
       CodeTs.detectSourceSheet sheets = Version.fallback sheets)
  ∧ ((∃ s n, Version.first_highest sheets s n) ∨ Version.none_versioned sheets).
Proof. intros _. apply detect_cases. Qed.

Lemma detectSourceSheet_chooses_witness :
  CodeTs.detectSourceSheet [lit "Backlog"; lit "VER0"; lit "Plans"]
  = Some (lit "VER0").
Proof.
  destruct (detectSourceSheet_chooses [lit "Backlog"; lit "VER0"; lit "Plans"])
    as (_ & Hfallback & _).
  - intros name k Hin Hk.
    repeat (apply elem_of_cons in Hin as [->|Hin]);
      [..|by apply elem_of_nil in Hin]; vm_compute in Hk; try discriminate.
    injection Hk as <-. reflexivity.
  - rewrite Hfallback; [reflexivity|].
    intros name k Hin Hk.
    repeat (apply elem_of_cons in Hin as [->|Hin]);
      [..|by apply elem_of_nil in Hin]; vm_compute in Hk; try discriminate.
    by injection Hk as <-.
Defined.

(** X3. The name of the destination sheet, the next version of the detected
    source sheet, is a versioned name whose number is above the number of
    every sheet of the workbook; so no sheet of the workbook has that name,
    and the run never finds a destination sheet to clear. *)
Theorem destination_sheet_is_new (sheets : list (list N)) (source : list N) :
  Version.numbers_safe sheets →
  CodeTs.detectSourceSheet sheets = Some source →
  ∃ m,
    Version.number (CodeTs.generateNextVersion source) = Some m
    ∧ (∀ name k, name ∈ sheets → Version.number name = Some k → (k < m)%N)
    ∧ CodeTs.generateNextVersion source ∉ sheets.
Proof.
  intros _ Hdetect.
  assert (Hnext : Version.number (CodeTs.generateNextVersion source)
                  = Some (default 1%N (Version.number source) + 1)%N).
  { unfold Version.number, CodeTs.generateNextVersion.
    destruct (CodeTs.match_VER source) as [ds|].
    - rewrite match_VER_show. cbn [fmap option_fmap option_map default].
      f_equal. apply show_N_parse.
    - vm_compute. reflexivity. }
  assert (Hbelow : ∀ name k, name ∈ sheets → Version.number name = Some k →
                     (k < default 1 (Version.number source) + 1)%N).
  { destruct (detect_cases sheets) as (Hhigh & Hfall & [(s & n & Hs)|Hnone]).
    - rewrite (Hhigh s n Hs) in Hdetect. injection Hdetect as <-.
      destruct Hs as (i & Hi & Hn & Hpos & Hmax & _). rewrite Hn. simpl.
      intros name k Hin Hk. specialize (Hmax name k Hin Hk). lia.
    - intros name k Hin Hk. rewrite (Hnone name k Hin Hk). lia. }
  eexists. split; [exact Hnext|]. split; [exact Hbelow|].
  intros Hin. specialize (Hbelow _ _ Hin Hnext). lia.
Qed.

Lemma destination_sheet_is_new_witness :
  CodeTs.generateNextVersion (lit "ver3")
  ∉ [lit "VER1"; lit "ver3"; lit "VER02"; lit "Backlog"].
Proof.
  destruct (destination_sheet_is_new
              [lit "VER1"; lit "ver3"; lit "VER02"; lit "Backlog"] (lit "ver3"))
    as (m & _ & _ & Hnew).
  - intros name k Hin Hk.
    repeat (apply elem_of_cons in Hin as [->|Hin]);
      [..|by apply elem_of_nil in Hin]; vm_compute in Hk; try discriminate;
      injection Hk as <-; reflexivity.
  - vm_compute. reflexivity.
  - exact Hnew.
Defined.

(** ** Collecting the commented rows *)










(** ** Counting rows, requests and errors of a run *)

Section Counters.

Variable fetch : nat → CodeTs.FetchResult.
Variable parse : list N → CodeTs.ParsedBody.
Variables (values : list (list (list N))) (headers : list (list N)).

Local Abbreviation call := (CodeTs.callBackendAPIBatch fetch parse).





End Counters.









(** X6. When the call for batch [i] succeeds and no returned row carries
    the number of a row of the batch (the answer has no rows, say), the rows
    of batch [i] are written nowhere: the destination sheet is the header,
    the rows of the other batches and the rows without a comment, and the
    log holds no ERROR entry for the batch. *)
Theorem unanswered_batch_is_dropped fetch parse name destExisted maxRows maxCols
    (headers : list (list N)) (rows : list (list (list N))) batches i batch returned :
  CodeTs.chunkArray (CodeTs.collect headers 1 rows) CodeTs.BATCH_SIZE = Some batches →
  batches !! i = Some batch →
  (CodeTs.callBackendAPIBatch fetch parse i).2 = CodeTs.Ok returned →
  (∀ r, r ∈ returned → ¬ RunSpec.in_batch batch r) →
  ∃ s,
    CodeTs.rewriteAllCommentedRows fetch parse name destExisted maxRows maxCols
      (headers :: rows) = CodeTs.Completed s
    ∧ CodeTs.dest s
      = [VStr <$> headers]
        ++ concat (imap (λ j b,
             RunSpec.batch_rows headers b (CodeTs.callBackendAPIBatch fetch parse j).2)
             (take i batches))
        ++ concat (imap (λ j b,
             RunSpec.batch_rows headers b (CodeTs.callBackendAPIBatch fetch parse (S i + j)).2)
             (drop (S i) batches))
        ++ ((λ r : list (list N), VStr <$> r) <$> CodeTs.uncommented headers rows)
    ∧ filter (λ e, RunSpec.is_error_of i e = true) (CodeTs.backlog s) = [].
Proof.
  intros Hchunk Hi Hok Hnone.
  destruct (run_closed_form fetch parse name destExisted maxRows maxCols
              headers rows batches Hchunk)
    as (s & pre & post & Hrun & Hdest & Hlog & Hpre & Hpost).
  exists s. split_and!; [done| |].
  - rewrite Hdest, (concat_imap_middle _ batches i batch Hi), Hok.
    cbn [RunSpec.batch_rows].
    assert (Hfilter : filter (λ r, RunSpec.matched batch r = true) returned = []).
    { clear Hok. induction returned as [|r returned IH]; [done|].
      rewrite filter_cons_False.
      - apply IH. intros r' Hr'. apply Hnone. by right.
      - intros Hm. apply matched_in_batch in Hm. apply (Hnone r); [by left|done]. }
    rewrite Hfilter, fmap_nil. cbn [app]. by rewrite <- !app_assoc.
  - assert (Herr : ∀ e, RunSpec.is_error_of i e = true →
                         CodeTs.log_type e ≠ CodeTs.INFO).
    { intros e He. unfold RunSpec.is_error_of, RunSpec.is_type in He.
      apply andb_true_iff in He as [He _]. apply bool_decide_eq_true in He.
      by rewrite He. }
    rewrite Hlog, !filter_app.
    rewrite (filter_INFO_nil _ pre Herr Hpre), (filter_INFO_nil _ post Herr Hpost).
    rewrite app_nil_r. cbn [app].
    rewrite filter_concat_imap. apply concat_imap_nil.
    intros j b Hj. rewrite errors_of_batch.
    destruct (decide (i = j)) as [<-|Hne]; [by rewrite Hok|].
    by destruct (CodeTs.callBackendAPIBatch fetch parse j).2.
Qed.

Lemma unanswered_batch_is_dropped_witness :
  ∃ s,
    CodeTs.rewriteAllCommentedRows
      (λ _, CodeTs.FetchResponse 200 (lit "{}")) (λ _, CodeTs.BodyRows [])
      (lit "VER1") false 1000 26
      [[lit "Title"; lit "Comment"]; [lit "Draft"; lit "shorter"]; [lit "Kept"; lit " "]]
    = CodeTs.Completed s
    ∧ CodeTs.dest s
      = [[VStr (lit "Title"); VStr (lit "Comment")]; [VStr (lit "Kept"); VStr (lit " ")]].
Proof.
  destruct (unanswered_batch_is_dropped
              (λ _, CodeTs.FetchResponse 200 (lit "{}")) (λ _, CodeTs.BodyRows [])
              (lit "VER1") false 1000 26
              [lit "Title"; lit "Comment"]
              [[lit "Draft"; lit "shorter"]; [lit "Kept"; lit " "]]
              [[CodeTs.mkCommentedRow 2 [lit "Draft"; lit "shorter"] (lit "shorter")]]
              0 [CodeTs.mkCommentedRow 2 [lit "Draft"; lit "shorter"] (lit "shorter")] [])
    as (s & Hrun & Hdest & _).
  - vm_compute. reflexivity.
  - reflexivity.
  - vm_compute. reflexivity.
  - intros r Hr. by apply elem_of_nil in Hr.
  - exists s. split; [exact Hrun|]. rewrite Hdest. vm_compute. reflexivity.
Defined.


Section LogCounts.

Variable fetch : nat → CodeTs.FetchResult.
Variable parse : list N → CodeTs.ParsedBody.

Local Abbreviation call := (CodeTs.callBackendAPIBatch fetch parse).



End LogCounts.






(** ** Sending a row and writing the answer *)

Lemma format_data_lookup (headers : list (list N)) (row : list (list N)) idx h :
  NoDup headers → headers !! idx = Some h → h ≠ lit "__proto__" →
  fold_left (λ d '(idx, header), assign header (default [] (row !! idx)) d)
    (imap (λ idx header, (idx, header)) headers) (∅ : gmap (list N) (list N)) !! h
  = Some (default [] (row !! idx)).
Proof.
  revert idx. induction headers as [|x l IH] using rev_ind; intros idx Hnd Hidx Hh; [done|].
  rewrite imap_app, fold_left_app. cbn [imap fold_left]. rewrite Nat.add_0_r.
  apply NoDup_app in Hnd as (Hl & Hx & _).
  destruct (decide (idx < length l)) as [Hlt|Hge].
  - rewrite lookup_app_l in Hidx by done.
    assert (h ≠ x).
    { intros ->. apply (Hx x); [by eapply list_elem_of_lookup_2|by left]. }
    unfold assign at 1. case_bool_decide; [by apply IH|].
    rewrite lookup_insert_ne by done. by apply IH.
  - rewrite lookup_app_r in Hidx by lia.
    apply list_lookup_singleton_Some in Hidx as [Hidx <-].
    replace idx with (length l) by lia.
    unfold assign at 1. rewrite bool_decide_eq_false_2 by done.
    by rewrite lookup_insert_eq.
Qed.

(** The row built from the answer that sends a row back as it is. *)
Lemma buildRow_echo (headers : list (list N)) (item : CodeTs.CommentedRow) :
  NoDup headers →
  Forall (λ h, trim h = h) headers →
  lit "__proto__" ∉ headers →
  lit "row_index" ∉ headers →
  length (CodeTs.row item) = length headers →
  CodeTs.buildRow headers (RunCount.echo headers item) = VStr <$> CodeTs.row item.
Proof.
  intros Hnd Htrim Hproto Hindex Hlen.
  apply list_eq. intros idx. unfold CodeTs.buildRow. rewrite !list_lookup_fmap.
  destruct (headers !! idx) as [h|] eqn:Hh.
  - assert (Hin : h ∈ headers) by by eapply list_elem_of_lookup_2.
    destruct (lookup_lt_is_Some_2 (CodeTs.row item) idx) as [cell Hcell].
    { rewrite Hlen. by eapply lookup_lt_Some. }
    rewrite Hcell. cbn [fmap option_fmap option_map]. f_equal.
    rewrite Forall_forall in Htrim. rewrite (Htrim h Hin).
    unfold RunCount.echo. rewrite lookup_insert_ne by (intros <-; done).
    rewrite lookup_fmap. unfold Backend.formatRow. cbn [Backend.data].
    rewrite (format_data_lookup headers (CodeTs.row item) idx h Hnd Hh)
      by (intros ->; done).
    by rewrite Hcell.
  - apply lookup_ge_None in Hh. rewrite lookup_ge_None_2 by lia. done.
Qed.

(** X7. Sending a row and writing back the answer that returns its data
    unchanged gives the row itself: with distinct headers that have no
    blank around them and are not named "row_index" or "__proto__", the row
    built from the fields the script sent is the original row. *)
Theorem echoed_row_is_rebuilt (headers : list (list N)) (item : CodeTs.CommentedRow) :
  NoDup headers →
  Forall (λ h, trim h = h) headers →
  lit "__proto__" ∉ headers →
  lit "row_index" ∉ headers →
  length (CodeTs.row item) = length headers →
  CodeTs.buildRow headers (RunCount.echo headers item) = VStr <$> CodeTs.row item.
Proof. apply buildRow_echo. Qed.

Lemma echoed_row_is_rebuilt_witness :
  CodeTs.buildRow [lit "No"; lit "Title"; lit "Comment"]
    (RunCount.echo [lit "No"; lit "Title"; lit "Comment"]
       (CodeTs.mkCommentedRow 3 [lit "2"; lit "Draft B"; lit " punchier "] (lit "punchier")))
  = [VStr (lit "2"); VStr (lit "Draft B"); VStr (lit " punchier ")].
Proof.
  apply (echoed_row_is_rebuilt [lit "No"; lit "Title"; lit "Comment"]
           (CodeTs.mkCommentedRow 3 [lit "2"; lit "Draft B"; lit " punchier "]
              (lit "punchier"))).
  - apply (bool_decide_unpack _). vm_compute. exact I.
  - apply (bool_decide_unpack _). vm_compute. exact I.
  - apply (bool_decide_unpack _). vm_compute. exact I.
  - apply (bool_decide_unpack _). vm_compute. exact I.
  - reflexivity.
Defined.

Section Identity.

Variable fetch : nat → CodeTs.FetchResult.
Variable parse : list N → CodeTs.ParsedBody.
Variables (values : list (list (list N))) (headers : list (list N)).

Local Abbreviation call := (CodeTs.callBackendAPIBatch fetch parse).


Hypothesis headers_distinct : NoDup headers.
Hypothesis headers_trimmed : Forall (λ h, trim h = h) headers.
Hypothesis headers_proto : lit "__proto__" ∉ headers.
Hypothesis headers_index : lit "row_index" ∉ headers.








End Identity.






(** ** The batch route of the backend *)



(** ** The daily quota *)

Lemma docId_inj u1 d1 u2 d2 :
  length d1 = length d2 →
  Firestore.docId u1 d1 = Firestore.docId u2 d2 → u1 = u2 ∧ d1 = d2.
Proof.
  intros Hlen Hid. unfold Firestore.docId in Hid.
  rewrite !(assoc_L (++)) in Hid.
  apply app_inj_2 in Hid as [Hu Hd]; [|done].
  split; [|done]. by apply (inj (λ l, l ++ lit "_")) in Hu.
Qed.

(** X12. The usage of a user on a day is kept apart from every other: with
    day names of one length, as the dates of the source are, recording a
    request of one user on one day changes neither the limit check nor the
    daily usage of another user or another day. *)
Theorem usage_is_per_user_and_day (max : Z) (readable writable : bool)
    (db : Firestore.Db) (record : Firestore.UsageRecord) (today user day : list N) :
  length day = length today →
  ¬ (user = Firestore.userId record ∧ day = today) →
  Firestore.checkUsageLimit max readable
    (Firestore.recordUsage writable db record today) user day
  = Firestore.checkUsageLimit max readable db user day
  ∧ Firestore.getDailyUsage readable
      (Firestore.recordUsage writable db record today) user (Some day) today
    = Firestore.getDailyUsage readable db user (Some day) today.
Proof.
  intros Hlen Hother.
  assert (Hlookup : Firestore.usage (Firestore.recordUsage writable db record today)
                      !! Firestore.docId user day
                    = Firestore.usage db !! Firestore.docId user day).
  { unfold Firestore.recordUsage. destruct writable; [|done].
    cbn [negb Firestore.usage]. apply lookup_insert_ne.
    intros Hid. apply docId_inj in Hid as [Hu Hd]; [|done]. by apply Hother. }
  split.
  - unfold Firestore.checkUsageLimit. by rewrite Hlookup.
  - unfold Firestore.getDailyUsage.
    destruct (bool_decide (day = [])) eqn:Hday.
    + apply bool_decide_eq_true in Hday. subst day.
      destruct today; [|done]. by rewrite Hlookup.
    + by rewrite Hlookup.
Qed.

Lemma usage_is_per_user_and_day_witness :
  Firestore.checkUsageLimit 100 true
    (Firestore.recordUsage true (Firestore.mkDb ∅ [])
       (Firestore.mkUsageRecord (lit "a") 1 10 (lit "schema")) (lit "2025-01-01"))
    (lit "a_b") (lit "2025-01-01")
  = Firestore.checkUsageLimit 100 true (Firestore.mkDb ∅ []) (lit "a_b") (lit "2025-01-01").
Proof.
  apply (usage_is_per_user_and_day 100 true true (Firestore.mkDb ∅ [])
           (Firestore.mkUsageRecord (lit "a") 1 10 (lit "schema"))
           (lit "2025-01-01") (lit "a_b") (lit "2025-01-01")).
  - reflexivity.
  - intros [Hu _]. vm_compute in Hu. discriminate.
Defined.

Section QuotaLemmas.

Variable estimateTokens : Backend.Schema → Z.
Variables (max : Z) (today user : list N) (hs : list jsval).

Hypothesis user_named : user ≠ [].
Hypothesis headers_given : hs ≠ [].
Hypothesis headers_strings : forallb Backend.is_string hs = true.

Local Abbreviation counted := (Quota.counted user today).

Lemma schemaRoute_valid allowed :
  Backend.schemaRoute true (VStr user) (Some hs) allowed
  = if allowed then Backend.Success (Backend.generateSchema (Backend.string_of <$> hs))
    else Backend.Failure 429 (lit "RATE_LIMIT_EXCEEDED").
Proof.
  unfold Backend.schemaRoute. cbn [negb truthy Backend.is_string orb].
  rewrite (bool_decide_eq_false_2 _ user_named). cbn [negb].
  destruct hs as [|h l]; [done|]. rewrite headers_strings. cbn [negb].
  by destruct allowed.
Qed.

Lemma schemaRequest_step db c :
  counted db c →
  let '(r, db') :=
    Routes.schemaRequest estimateTokens max true true today (VStr user) (Some hs) db in
  if decide (c < Z.max 1 max)%Z
  then r = Backend.Success (Backend.generateSchema (Backend.string_of <$> hs))
       ∧ counted db' (c + 1)
  else r = Backend.Failure 429 (lit "RATE_LIMIT_EXCEEDED") ∧ db' = db.
Proof.
  intros Hc. unfold Routes.schemaRequest. rewrite schemaRoute_valid.
  unfold Firestore.checkUsageLimit. cbn [negb Backend.string_of].
  destruct Hc as [[-> Hnone]|(Hpos & d & Hd & Hcalls)].
  - rewrite Hnone. cbn [Firestore.allowed].
    rewrite decide_True by lia. split; [done|]. right. split; [lia|].
    unfold Firestore.recordUsage. cbn [negb Firestore.userId Firestore.usage].
    rewrite Hnone. eexists. rewrite lookup_insert_eq. split; [done|]. done.
  - rewrite Hd. cbn [Firestore.allowed].
    destruct (Z.ltb_spec 0 (max - Firestore.totalCalls d)) as [Hlt|Hge].
    + rewrite decide_True by lia. split; [done|]. right. split; [lia|].
      unfold Firestore.recordUsage. cbn [negb Firestore.userId Firestore.usage].
      rewrite Hd. eexists. rewrite lookup_insert_eq. split; [done|].
      cbn [Firestore.totalCalls Firestore.apiCalls]. lia.
    + rewrite decide_False by lia. done.
Qed.

Lemma schemaRequests_count n db c :
  counted db c →
  let out := Quota.schemaRequests estimateTokens max today (VStr user) (Some hs) n db in
  length out.1 = n
  ∧ (∀ i r, out.1 !! i = Some r →
       r = if decide (c + Z.of_nat i < Z.max 1 max)%Z
           then Backend.Success (Backend.generateSchema (Backend.string_of <$> hs))
           else Backend.Failure 429 (lit "RATE_LIMIT_EXCEEDED"))
  ∧ counted out.2 (Z.max c (Z.min (c + Z.of_nat n) (Z.max 1 max))).
Proof.
  revert db c. induction n as [|n IH]; intros db c Hc; cbn zeta.
  - cbn [Quota.schemaRequests fst snd length]. split_and!; [done|done|].
    by replace (Z.max c (Z.min (c + Z.of_nat 0) (Z.max 1 max))) with c by lia.
  - cbn [Quota.schemaRequests].
    pose proof (schemaRequest_step db c Hc) as Hstep.
    destruct (Routes.schemaRequest estimateTokens max true true today (VStr user)
                (Some hs) db) as [r db1].
    destruct (decide (c < Z.max 1 max)%Z) as [Hlt|Hge].
    + destruct Hstep as [-> Hc1].
      specialize (IH db1 (c + 1)%Z Hc1). cbn zeta in IH.
      destruct (Quota.schemaRequests estimateTokens max today (VStr user) (Some hs) n db1)
        as [rs db2].
      cbn [fst snd] in *. destruct IH as (Hlen & Hrs & Hfinal).
      split_and!; [simpl; lia| |].
      * intros [|i] r Hi; simpl in Hi.
        -- injection Hi as <-. by rewrite decide_True by lia.
        -- rewrite (Hrs i r Hi).
           destruct (decide (c + 1 + Z.of_nat i < Z.max 1 max)%Z);
             [rewrite decide_True by lia|rewrite decide_False by lia]; done.
      * replace (Z.max c (Z.min (c + Z.of_nat (S n)) (Z.max 1 max)))
          with (Z.max (c + 1) (Z.min (c + 1 + Z.of_nat n) (Z.max 1 max))) by lia.
        done.
    + destruct Hstep as [-> ->].
      specialize (IH db c Hc). cbn zeta in IH.
      destruct (Quota.schemaRequests estimateTokens max today (VStr user) (Some hs) n db)
        as [rs db2].
      cbn [fst snd] in *. destruct IH as (Hlen & Hrs & Hfinal).
      split_and!; [simpl; lia| |].
      * intros [|i] r Hi; simpl in Hi.
        -- injection Hi as <-. by rewrite decide_False by lia.
        -- rewrite (Hrs i r Hi).
           destruct (decide (c + Z.of_nat i < Z.max 1 max)%Z); [lia|].
           by rewrite decide_False by lia.
      * replace (Z.max c (Z.min (c + Z.of_nat (S n)) (Z.max 1 max)))
          with (Z.max c (Z.min (c + Z.of_nat n) (Z.max 1 max))) by lia.
        done.
Qed.

End QuotaLemmas.

(** X11. The daily limit of the schema route, with the usage store
    answering: of the requests a user sends on a day on which nothing is
    recorded for them yet, the first [Z.max 1 max] get the schema and every
    later one gets 429 RATE_LIMIT_EXCEEDED; the store then counts as many
    calls as requests were served.  The first request of a day is served
    whatever the limit is. *)
Theorem daily_limit_is_enforced (estimateTokens : Backend.Schema → Z) (max : Z)
    (today user : list N) (hs : list jsval) (n : nat) (db : Firestore.Db) :
  user ≠ [] →
  hs ≠ [] →
  forallb Backend.is_string hs = true →
  Firestore.usage db !! Firestore.docId user today = None →
  let out := Quota.schemaRequests estimateTokens max today (VStr user) (Some hs) n db in
  length out.1 = n
  ∧ (∀ i r, out.1 !! i = Some r →
       r = if decide (Z.of_nat i < Z.max 1 max)%Z
           then Backend.Success (Backend.generateSchema (Backend.string_of <$> hs))
           else Backend.Failure 429 (lit "RATE_LIMIT_EXCEEDED"))
  ∧ Quota.calls out.2 user today = Z.min (Z.of_nat n) (Z.max 1 max).
Proof.
  intros Huser Hhs Hstr Hnone.
  destruct (schemaRequests_count estimateTokens max today user hs Huser Hhs Hstr n db 0%Z)
    as (Hlen & Hrs & Hfinal); [left; done|].
  cbn zeta. split_and!; [done| |].
  - intros i r Hi. rewrite (Hrs i r Hi).
    destruct (decide (0 + Z.of_nat i < Z.max 1 max)%Z);
      [rewrite decide_True by lia|rewrite decide_False by lia]; done.
  - unfold Quota.calls.
    destruct Hfinal as [[Hz ->]|(Hpos & d & -> & ->)]; lia.
Qed.

Lemma daily_limit_is_enforced_witness :
  Quota.calls
    (Quota.schemaRequests (λ _, 25%Z) 2 (lit "2025-01-01") (VStr (lit "u1"))
       (Some [VStr (lit "Title"); VStr (lit "Comment")]) 3 (Firestore.mkDb ∅ [])).2
    (lit "u1") (lit "2025-01-01")
  = 2%Z.
Proof.
  destruct (daily_limit_is_enforced (λ _, 25%Z) 2 (lit "2025-01-01") (lit "u1")
              [VStr (lit "Title"); VStr (lit "Comment")] 3 (Firestore.mkDb ∅ []))
    as (_ & _ & Hcalls).
  - discriminate.
  - discriminate.
  - reflexivity.
  - reflexivity.
  - exact Hcalls.
Defined.

(** ** The diff of the implementation guide: [longestCommonSubsequence] *)

Lemma table_0_r str1 str2 i : Lcs.table str1 str2 i 0 = 0.
Proof. by destruct i. Qed.

Lemma table_S str1 str2 i j :
  Lcs.table str1 str2 (S i) (S j)
  = if bool_decide (str1 !! i = str2 !! j) then Lcs.table str1 str2 i j + 1
    else Nat.max (Lcs.table str1 str2 i (S j)) (Lcs.table str1 str2 (S i) j).
Proof. reflexivity. Qed.

Lemma dp_get_set_ne dp i j v i' j' :
  (i', j') ≠ (i, j) →
  Guide.dp_get (Guide.dp_set dp i j v) i' j' = Guide.dp_get dp i' j'.
Proof.
  intros Hne. unfold Guide.dp_get, Guide.dp_set.
  destruct (decide (i = i')) as [->|Hi].
  - rewrite list_lookup_alter_eq. destruct (dp !! i') as [r|]; [|done]. simpl.
    rewrite list_lookup_insert_ne; [done|]. intros ->. done.
  - by rewrite list_lookup_alter_ne.
Qed.

Lemma dp_get_set_eq dp i j v r :
  dp !! i = Some r → j < length r →
  Guide.dp_get (Guide.dp_set dp i j v) i j = v.
Proof.
  intros Hr Hj. unfold Guide.dp_get, Guide.dp_set.
  rewrite list_lookup_alter_eq, Hr. simpl.
  by rewrite list_lookup_insert_eq.
Qed.

Lemma dp_set_shape dp i j v m n :
  length dp = m ∧ Forall (λ r, length r = n) dp →
  length (Guide.dp_set dp i j v) = m
  ∧ Forall (λ r, length r = n) (Guide.dp_set dp i j v).
Proof.
  intros [Hlen Hrows]. unfold Guide.dp_set. split; [by rewrite length_alter|].
  apply Forall_alter; [done|]. intros r _ Hr. by rewrite length_insert.
Qed.

Section Table.

Variables str1 str2 : list N.

Lemma dp_cell_filled dp i j :
  1 ≤ i ≤ length str1 → S j ≤ length str2 →
  Lcs.filled str1 str2 dp i j →
  Lcs.filled str1 str2 (Guide.dp_cell str1 str2 dp i (S j)) i (S j).
Proof.
  intros Hi Hj (Hlen & Hrows & Hcol & Hfill).
  destruct i as [|i]; [lia|].
  assert (Hval :
    (if bool_decide (str1 !! i = str2 !! j)
     then Guide.dp_get dp i j + 1
     else Nat.max (Guide.dp_get dp i (S j)) (Guide.dp_get dp (S i) j))
    = Lcs.table str1 str2 (S i) (S j)).
  { rewrite table_S.
    rewrite (Hfill i j), (Hfill i (S j)), (Hfill (S i) j) by lia. done. }
  destruct (lookup_lt_is_Some_2 dp (S i)) as [r Hr]; [lia|].
  assert (Hrlen : length r = length str2 + 1).
  { rewrite Forall_forall in Hrows. apply Hrows. by eapply list_elem_of_lookup_2. }
  assert (Hcell : ∃ v, Guide.dp_cell str1 str2 dp (S i) (S j) = Guide.dp_set dp (S i) (S j) v
                       ∧ v = Lcs.table str1 str2 (S i) (S j)).
  { unfold Guide.dp_cell. cbn [Nat.sub]. rewrite !Nat.sub_0_r.
    rewrite <- Hval. case_bool_decide; eexists; split; reflexivity. }
  destruct Hcell as (v & -> & Hv).
  destruct (dp_set_shape dp (S i) (S j) v _ _ (conj Hlen Hrows)) as [Hlen' Hrows'].
  split_and!; [done|done| |].
  - intros i'. rewrite dp_get_set_ne by (intros [= _ ?]; lia). apply Hcol.
  - intros i' j' Hj' Hreg.
    destruct (decide ((i', j') = (S i, S j))) as [[= -> ->]|Hne].
    + rewrite (dp_get_set_eq _ _ _ _ r) by (done || lia). done.
    + rewrite dp_get_set_ne by done. apply Hfill; [done|].
      destruct Hreg as [?|[-> ?]]; [by left|]. right. split; [done|].
      destruct (decide (j' = S j)) as [->|]; [done|lia].
Qed.

Lemma dp_row_filled dp i k :
  1 ≤ i ≤ length str1 → k ≤ length str2 →
  Lcs.filled str1 str2 dp i 0 →
  Lcs.filled str1 str2
    (fold_left (λ dp j, Guide.dp_cell str1 str2 dp i j) (seq 1 k) dp) i k.
Proof.
  intros Hi. induction k as [|k IH]; intros Hk Hdp; [done|].
  rewrite seq_S, fold_left_app. cbn [fold_left]. cbn [Nat.add].
  apply dp_cell_filled; [done|done|]. apply IH; [lia|done].
Qed.

Lemma dp_next_row dp i :
  Lcs.filled str1 str2 dp i (length str2) → Lcs.filled str1 str2 dp (S i) 0.
Proof.
  intros (Hlen & Hrows & Hcol & Hfill). split_and!; [done..|].
  intros i' j' Hj' [Hlt|[-> Hz]].
  - apply Hfill; [done|]. destruct (decide (i' = i)) as [->|]; [right|left]; lia.
  - assert (j' = 0) as -> by lia. rewrite Hcol. by rewrite table_0_r.
Qed.

Lemma dp_rows_filled dp k :
  k ≤ length str1 →
  Lcs.filled str1 str2 dp 0 (length str2) →
  Lcs.filled str1 str2
    (fold_left (λ dp i,
       fold_left (λ dp j, Guide.dp_cell str1 str2 dp i j) (seq 1 (length str2)) dp)
       (seq 1 k) dp)
    k (length str2).
Proof.
  induction k as [|k IH]; intros Hk Hdp; [done|].
  rewrite seq_S, fold_left_app. cbn [fold_left]. cbn [Nat.add].
  apply dp_row_filled; [lia|done|]. apply dp_next_row, IH; [lia|done].
Qed.

Lemma dp_get_zeros a b i j : Guide.dp_get (replicate a (replicate b 0)) i j = 0.
Proof.
  unfold Guide.dp_get.
  destruct (replicate a (replicate b 0) !! i) as [r|] eqn:Hr; [|done]. simpl.
  apply lookup_replicate in Hr as [-> _].
  destruct (replicate b 0 !! j) as [v|] eqn:Hv; [|done].
  by apply lookup_replicate in Hv as [-> _].
Qed.

(** The table is filled with the lengths. *)
Lemma dp_fill_filled :
  Lcs.filled str1 str2 (Guide.dp_fill str1 str2) (length str1) (length str2).
Proof.
  unfold Guide.dp_fill. apply dp_rows_filled; [done|].
  split_and!.
  - by rewrite length_replicate.
  - apply Forall_replicate. by rewrite length_replicate.
  - intros i'. apply dp_get_zeros.
  - intros i' j' _ [Hlt|[-> _]]; [lia|]. apply dp_get_zeros.
Qed.

(** Reading the table backwards gives a common subsequence of the length
    the table holds. *)
Lemma backtrack_spec dp fuel i j acc :
  (∀ i' j', i' ≤ length str1 → j' ≤ length str2 →
     Guide.dp_get dp i' j' = Lcs.table str1 str2 i' j') →
  i ≤ length str1 → j ≤ length str2 → i + j ≤ fuel →
  ∃ pre,
    Guide.backtrack fuel str1 str2 dp i j acc = Some (pre ++ acc)
    ∧ pre `sublist_of` take i str1
    ∧ pre `sublist_of` take j str2
    ∧ length pre = Lcs.table str1 str2 i j.
Proof.
  intros Hdp. revert i j acc. induction fuel as [|fuel IH]; intros i j acc Hi Hj Hfuel.
  - assert (i = 0) as -> by lia. assert (j = 0) as -> by lia.
    exists []. split_and!; [done|apply sublist_nil_l..|done].
  - cbn [Guide.backtrack].
    destruct i as [|i].
    { exists []. split_and!; [done|apply sublist_nil_l..|done]. }
    destruct j as [|j].
    { exists []. split_and!; [done|apply sublist_nil_l..|done]. }
    replace ((0 <? S i) && (0 <? S j)) with true by done.
    cbn [Nat.sub]. rewrite !Nat.sub_0_r, table_S.
    destruct (lookup_lt_is_Some_2 str1 i) as [x Hx]; [lia|].
    destruct (lookup_lt_is_Some_2 str2 j) as [y Hy]; [lia|].
    rewrite (take_S_r _ _ _ Hx), (take_S_r _ _ _ Hy).
    case_bool_decide as Hxy.
    + destruct (IH i j (option_list (str1 !! i) ++ acc)) as (pre & Hrun & H1 & H2 & Hlen);
        [lia..|].
      rewrite Hx in Hrun, Hxy. rewrite Hy in Hxy. injection Hxy as <-.
      cbn [option_list app] in Hrun.
      exists (pre ++ [x]). rewrite Hx. cbn [option_list app].
      rewrite Hrun, <- app_assoc. cbn [app].
      split_and!; [done|by apply sublist_app..|].
      rewrite length_app. simpl. lia.
    + rewrite !Hdp by lia.
      destruct (Nat.ltb_spec (Lcs.table str1 str2 (S i) j) (Lcs.table str1 str2 i (S j))).
      * destruct (IH i (S j) acc) as (pre & Hrun & H1 & H2 & Hlen); [lia..|].
        exists pre. rewrite (take_S_r _ _ _ Hy) in H2.
        split_and!; [done|by apply sublist_inserts_r|done|lia].
      * destruct (IH (S i) j acc) as (pre & Hrun & H1 & H2 & Hlen); [lia..|].
        exists pre. rewrite (take_S_r _ _ _ Hx) in H1.
        split_and!; [done|done|by apply sublist_inserts_r|lia].
Qed.

(** No common subsequence of two prefixes is longer than the table says. *)
Lemma table_bounds i j c :
  i ≤ length str1 → j ≤ length str2 →
  c `sublist_of` take i str1 → c `sublist_of` take j str2 →
  length c ≤ Lcs.table str1 str2 i j.
Proof.
  revert j c. induction i as [|i IHi]; intros j c Hi Hj H1 H2.
  { simpl in H1. apply sublist_nil_r in H1 as ->. simpl. lia. }
  revert c H1 H2. induction j as [|j IHj]; intros c H1 H2.
  { rewrite take_0 in H2. apply sublist_nil_r in H2 as ->. simpl. lia. }
  destruct (lookup_lt_is_Some_2 str1 i) as [x Hx]; [lia|].
  destruct (lookup_lt_is_Some_2 str2 j) as [y Hy]; [lia|].
  rewrite (take_S_r _ _ _ Hx) in H1. rewrite (take_S_r _ _ _ Hy) in H2.
  rewrite table_S, Hx, Hy.
  apply sublist_app_r in H1 as (c1 & t1 & -> & Hc1 & Ht1).
  apply sublist_cons_r in Ht1 as [Ht1|(t1' & -> & Ht1)].
  - (* the last character of the first prefix is not used *)
    apply sublist_nil_r in Ht1 as ->. rewrite app_nil_r in *.
    assert (Hb : length c1 ≤ Lcs.table str1 str2 i (S j)).
    { apply IHi; [lia|lia|done|]. by rewrite (take_S_r _ _ _ Hy). }
    case_bool_decide as Hxy; [|lia].
    injection Hxy as <-.
    apply sublist_app_r in H2 as (c2 & t2 & -> & Hc2 & Ht2).
    apply sublist_cons_r in Ht2 as [Ht2|(t2' & -> & Ht2)].
    + apply sublist_nil_r in Ht2 as ->. rewrite app_nil_r in *.
      assert (length c2 ≤ Lcs.table str1 str2 i j); [|lia].
      apply IHi; [lia|lia|done|done].
    + apply sublist_nil_r in Ht2 as ->.
      assert (length c2 ≤ Lcs.table str1 str2 i j).
      { apply IHi; [lia|lia| |done].
        apply sublist_app_l in Hc1 as (k1 & k2 & Heq & Hk1 & _).
        rewrite Heq. by apply sublist_inserts_r. }
      rewrite length_app. simpl. lia.
  - (* the subsequence ends with the last character of the first prefix *)
    apply sublist_nil_r in Ht1 as ->.
    apply sublist_app_r in H2 as (c2 & t2 & Heq & Hc2 & Ht2).
    apply sublist_cons_r in Ht2 as [Ht2|(t2' & -> & Ht2)].
    + apply sublist_nil_r in Ht2 as ->. rewrite app_nil_r in Heq. subst c2.
      assert (Hb : length (c1 ++ [x]) ≤ Lcs.table str1 str2 (S i) j).
      { apply IHj; [lia| |done]. rewrite (take_S_r _ _ _ Hx).
        by apply sublist_app. }
      case_bool_decide as Hxy; [|lia].
      assert (length c1 ≤ Lcs.table str1 str2 i j).
      { apply IHi; [lia|lia|done|].
        apply sublist_app_l in Hc2 as (k1 & k2 & Heq & Hk1 & _).
        rewrite Heq. by apply sublist_inserts_r. }
      rewrite length_app. simpl. lia.
    + apply sublist_nil_r in Ht2 as ->.
      apply app_inj_tail in Heq as [<- <-].
      rewrite bool_decide_eq_true_2 by done.
      assert (length c1 ≤ Lcs.table str1 str2 i j) by (apply IHi; [lia|lia|done|done]).
      rewrite length_app. simpl. lia.
Qed.

End Table.

(** The subsequence returned has the length the table holds. *)
Lemma lcs_spec (str1 str2 : list N) :
  ∃ lcs,
    Guide.longestCommonSubsequence str1 str2 = Some lcs
    ∧ lcs `sublist_of` str1
    ∧ lcs `sublist_of` str2
    ∧ length lcs = Lcs.table str1 str2 (length str1) (length str2).
Proof.
  destruct (dp_fill_filled str1 str2) as (_ & _ & _ & Hfill).
  destruct (backtrack_spec str1 str2 (Guide.dp_fill str1 str2)
              (length str1 + length str2) (length str1) (length str2) [])
    as (pre & Hrun & H1 & H2 & Hlen); [|done..|].
  { intros i' j' Hi' Hj'. apply Hfill; [done|].
    destruct (decide (i' = length str1)) as [->|]; [right|left]; lia. }
  rewrite app_nil_r in Hrun. rewrite firstn_all in H1, H2.
  by exists pre.
Qed.

(** X13. [longestCommonSubsequence] returns, for every two strings, a
    common subsequence of them that no common subsequence exceeds in
    length. *)
Theorem lcs_is_longest (str1 str2 : list N) :
  ∃ lcs,
    Guide.longestCommonSubsequence str1 str2 = Some lcs
    ∧ lcs `sublist_of` str1
    ∧ lcs `sublist_of` str2
    ∧ ∀ c, c `sublist_of` str1 → c `sublist_of` str2 → length c ≤ length lcs.
Proof.
  destruct (lcs_spec str1 str2) as (lcs & Hrun & H1 & H2 & Hlen).
  exists lcs. split_and!; [done..|].
  intros c Hc1 Hc2. rewrite Hlen.
  apply table_bounds; [done|done|by rewrite firstn_all..].
Qed.

(** ** The diff of the implementation guide: [createDiffRichText] *)

Lemma unmarked_from_cons p c text red :
  Marks.unmarked_from p (c :: text) red
  = (if Marks.styled red p then [] else [c]) ++ Marks.unmarked_from (S p) text red.
Proof.
  unfold Marks.unmarked_from. rewrite imap_cons. cbn [concat]. rewrite Nat.add_0_r.
  do 2 f_equal. apply imap_ext. intros q x _. unfold compose.
  by replace (p + S q) with (S p + q) by lia.
Qed.

Lemma unmarked_from_app p text1 text2 red :
  Marks.unmarked_from p (text1 ++ text2) red
  = Marks.unmarked_from p text1 red ++ Marks.unmarked_from (p + length text1) text2 red.
Proof.
  revert p. induction text1 as [|c text1 IH]; intros p.
  - cbn [app length]. by rewrite Nat.add_0_r.
  - cbn [app length]. rewrite !unmarked_from_cons, IH, <- app_assoc.
    by replace (S p + length text1) with (p + S (length text1)) by lia.
Qed.

Lemma unmarked_from_ext p text red red' :
  (∀ q, p ≤ q < p + length text → Marks.styled red q = Marks.styled red' q) →
  Marks.unmarked_from p text red = Marks.unmarked_from p text red'.
Proof.
  revert p. induction text as [|c text IH]; intros p Hext; [done|].
  rewrite !unmarked_from_cons, (Hext p) by (simpl; lia).
  f_equal. apply IH. intros q Hq. apply Hext. simpl. lia.
Qed.

Lemma unmarked_from_all p text red :
  (∀ q, p ≤ q < p + length text → Marks.styled red q = true) →
  Marks.unmarked_from p text red = [].
Proof.
  revert p. induction text as [|c text IH]; intros p Hall; [done|].
  rewrite unmarked_from_cons, (Hall p) by (simpl; lia).
  apply IH. intros q Hq. apply Hall. simpl. lia.
Qed.

Lemma unmarked_from_none p text red :
  (∀ q, p ≤ q < p + length text → Marks.styled red q = false) →
  Marks.unmarked_from p text red = text.
Proof.
  revert p. induction text as [|c text IH]; intros p Hnone; [done|].
  rewrite unmarked_from_cons, (Hnone p) by (simpl; lia).
  cbn [app]. f_equal. apply IH. intros q Hq. apply Hnone. simpl. lia.
Qed.

Lemma styled_ranges ps p :
  Marks.styled (Marks.range <$> ps) p = bool_decide (p ∈ ps).
Proof.
  unfold Marks.styled. apply bool_decide_ext. rewrite list_elem_of_fmap. split.
  - intros (q & [= ->] & Hq). done.
  - intros Hp. by exists p.
Qed.

(** The first place where a subsequence can start. *)
Lemma sublist_first {A} (x : A) (l k : list A) `{EqDecision A} :
  x :: l `sublist_of` k →
  ∃ pre post, k = pre ++ x :: post ∧ (x ∉ pre) ∧ (l `sublist_of` post).
Proof.
  induction k as [|y k IH]; intros Hsub.
  - by apply sublist_nil_r in Hsub.
  - destruct (decide (y = x)) as [->|Hne].
    + exists [], k. split_and!; [done|apply not_elem_of_nil|].
      apply sublist_cons_r in Hsub as [Hsub|(l' & [= <-] & Hsub)]; [|done].
      etrans; [|exact Hsub]. by apply sublist_cons.
    + apply sublist_cons_r in Hsub as [Hsub|(l' & [= -> _] & _)]; [|done].
      destruct (IH Hsub) as (pre & post & -> & Hpre & Hpost).
      exists (y :: pre), post. split_and!; [done| |done].
      apply not_elem_of_cons. split; [by intros ->|done].
Qed.

Lemma mark_new_first char pre post newIdx :
  char ∉ pre →
  Guide.mark_new char (pre ++ char :: post) newIdx
  = (Marks.range <$> seq newIdx (length pre), newIdx + length pre).
Proof.
  revert newIdx. induction pre as [|c pre IH]; intros newIdx Hpre.
  - cbn [app Guide.mark_new]. rewrite bool_decide_eq_true_2 by done.
    cbn [length seq fmap list_fmap]. by rewrite Nat.add_0_r.
  - apply not_elem_of_cons in Hpre as [Hc Hpre].
    cbn [app Guide.mark_new]. rewrite bool_decide_eq_false_2 by (by intros ->).
    rewrite IH by done. cbn [length seq]. rewrite fmap_cons.
    f_equal. lia.
Qed.

(** The loop over the common subsequence: it styles the characters it
    passes and leaves those of the subsequence. *)
Lemma replay_spec (oldText newText lcs : list N) oldIdx newIdx :
  lcs `sublist_of` drop newIdx newText →
  ∃ ps k,
    Guide.replay lcs oldText newText oldIdx newIdx = (Marks.range <$> ps, k)
    ∧ newIdx ≤ k ≤ newIdx + length (drop newIdx newText)
    ∧ Forall (λ p, newIdx ≤ p < k) ps
    ∧ length ps + length lcs = k - newIdx
    ∧ Marks.unmarked_from newIdx (take (k - newIdx) (drop newIdx newText))
        (Marks.range <$> ps) = lcs.
Proof.
  revert oldIdx newIdx. induction lcs as [|char lcs IH]; intros oldIdx newIdx Hsub.
  - exists [], newIdx. cbn [Guide.replay]. split_and!; [done|lia|lia|done|simpl; lia|].
    by rewrite Nat.sub_diag.
  - destruct (sublist_first _ _ _ Hsub) as (pre & post & Hrest & Hpre & Hpost).
    assert (Hdrop : drop (newIdx + length pre + 1) newText = post).
    { rewrite <- Nat.add_assoc, <- drop_drop, Hrest.
      by rewrite drop_app_add' by done. }
    destruct (IH (Guide.skip_old char (drop oldIdx oldText) oldIdx + 1)
                 (newIdx + length pre + 1)) as (ps & k & Hrun & Hk & Hps & Hlen & Hun).
    { by rewrite Hdrop. }
    rewrite Hdrop in Hk, Hun.
    exists (seq newIdx (length pre) ++ ps), k.
    cbn [Guide.replay]. rewrite Hrest, (mark_new_first _ _ _ _ Hpre), Hrun.
    rewrite length_app in *. cbn [length] in *.
    split_and!.
    + by rewrite fmap_app.
    + lia.
    + lia.
    + apply Forall_app. split.
      * apply Forall_forall. intros p Hp. apply elem_of_seq in Hp. lia.
      * eapply Forall_impl; [exact Hps|]. intros p Hp. simpl in Hp. lia.
    + rewrite length_app, length_seq. lia.
    + replace (k - newIdx) with (length pre + S (k - (newIdx + length pre + 1))) by lia.
      rewrite take_app_add'; [|done]. cbn [take].
      rewrite unmarked_from_app, unmarked_from_cons.
      rewrite unmarked_from_all.
      2:{ intros q Hq. rewrite styled_ranges. apply bool_decide_eq_true.
          apply elem_of_app. left. apply elem_of_seq. lia. }
      assert (Hchar : Marks.styled (Marks.range <$> seq newIdx (length pre) ++ ps)
                        (newIdx + length pre) = false).
      { rewrite styled_ranges. apply bool_decide_eq_false.
        intros Hin. apply elem_of_app in Hin as [Hin|Hin].
        - apply elem_of_seq in Hin. lia.
        - rewrite Forall_forall in Hps. specialize (Hps _ Hin). simpl in Hps. lia. }
      rewrite Hchar. cbn [app]. f_equal.
      rewrite <- Hun.
      replace (S (newIdx + length pre)) with (newIdx + length pre + 1) by lia.
      apply unmarked_from_ext. intros q Hq. rewrite !styled_ranges.
      apply bool_decide_ext. rewrite elem_of_app, elem_of_seq. split; [|by right].
      intros [Hin|Hin]; [lia|done].
Qed.

(** X14. The diff of the guide styles single characters of the new text,
    each at most once, and the characters it leaves unstyled spell a longest
    common subsequence of the old and the new text: they are a subsequence
    of the old text, and no common subsequence of the two texts is longer.
    So the styled characters are as few as a character diff allows. *)
Theorem guide_diff_leaves_lcs (oldText newText : list N) :
  ∃ red,
    Guide.createDiffRichText oldText newText = Some red
    ∧ Forall (λ r, r.2 = r.1 + 1 ∧ r.1 < length newText) red
    ∧ Marks.unmarked newText red `sublist_of` oldText
    ∧ (∀ c, c `sublist_of` oldText → c `sublist_of` newText →
         length c ≤ length (Marks.unmarked newText red))
    ∧ length red + length (Marks.unmarked newText red) = length newText.
Proof.
  unfold Guide.createDiffRichText. case_bool_decide as Heq.
  - subst newText. exists []. unfold Marks.unmarked.
    rewrite unmarked_from_none by (intros q _; apply bool_decide_eq_false, not_elem_of_nil).
    split_and!; [done|done|done| |done].
    intros c Hc _. by apply sublist_length.
  - destruct (lcs_spec oldText newText) as (lcs & -> & H1 & H2 & Hlen).
    cbn [mbind option_bind].
    destruct (replay_spec oldText newText lcs 0 0) as (ps & k & -> & Hk & Hps & Hcount & Hun);
      [by rewrite drop_0|].
    rewrite drop_0, Nat.sub_0_r in *. cbn [Nat.add] in *.
    eexists. split; [reflexivity|].
    assert (Hred : (Marks.range <$> ps) ++ Guide.mark_rest newText k
                   = Marks.range <$> (ps ++ seq k (length newText - k))).
    { by rewrite fmap_app. }
    rewrite Hred. clear Hred.
    assert (Hunmarked : Marks.unmarked newText
                          (Marks.range <$> ps ++ seq k (length newText - k)) = lcs).
    { unfold Marks.unmarked. rewrite <- (take_drop k newText) at 1.
      rewrite unmarked_from_app, length_take_le by lia. cbn [Nat.add].
      rewrite (unmarked_from_all k).
      2:{ intros q Hq. rewrite length_drop in Hq. rewrite styled_ranges.
          apply bool_decide_eq_true, elem_of_app. right. apply elem_of_seq. lia. }
      rewrite app_nil_r, <- Hun. apply unmarked_from_ext.
      intros q Hq. rewrite length_take_le in Hq by lia. rewrite !styled_ranges.
      apply bool_decide_ext. rewrite elem_of_app, elem_of_seq. split; [|by left].
      intros [Hin|Hin]; [done|lia]. }
    rewrite Hunmarked. split_and!.
    + apply Forall_fmap, Forall_app. split.
      * eapply Forall_impl; [exact Hps|]. intros p Hp. simpl in *. split; [done|lia].
      * apply Forall_forall. intros p Hp. apply elem_of_seq in Hp. simpl. split; [done|lia].
    + done.
    + intros c Hc1 Hc2. rewrite Hlen.
      apply table_bounds; [done|done|by rewrite firstn_all..].
    + rewrite length_fmap, length_app, length_seq. lia.
Qed.

(** ** The update step of the implementation guide *)

Section GuideUpdates.

Variables (data : list (list (list N))) (headers : list (list N)).

Lemma cell_alter_insert {A} (sheet : list (list A)) r c v r' c' :
  (r', c') ≠ (r, c) →
  GuideSpec.cell (alter (λ line, <[c:=v]> line) r sheet) r' c' = GuideSpec.cell sheet r' c'.
Proof.
  intros Hne. unfold GuideSpec.cell.
  destruct (decide (r = r')) as [->|Hr].
  - rewrite list_lookup_alter_eq. destruct (sheet !! r') as [line|]; [|done]. simpl.
    rewrite list_lookup_insert_ne; [done|]. by intros ->.
  - by rewrite list_lookup_alter_ne.
Qed.






End GuideUpdates.



Section GuideWrite.

Variables (data : list (list (list N))) (headers : list (list N)).
Variable update : gmap (list N) jsval.
Variables (r : nat) (d : list (list N)).

Hypothesis update_row : Guide.data_row data update = Some (r, d).

(** With a line for the update, no column raises an error. *)
Lemma applyCell_no_error newSheet colIndex :
  (Guide.applyCell data headers update (newSheet, None) colIndex).2 = None.
Proof.
  unfold Guide.applyCell. case_bool_decide; [done|].
  destruct (headers !! colIndex ≫= λ header, update !! header) as [v|]; [|done].
  rewrite update_row.
  destruct (guide_diff_returns (default [] (d !! colIndex)) (Guide.String_or_empty v))
    as [red Hred].
  rewrite Hred. by destruct v.
Qed.

Lemma applyCell_other newSheet colIndex c :
  colIndex ≠ c →
  GuideSpec.cell (Guide.applyCell data headers update (newSheet, None) colIndex).1 r c
  = GuideSpec.cell newSheet r c.
Proof.
  intros Hne. unfold Guide.applyCell. case_bool_decide; [done|].
  destruct (headers !! colIndex ≫= λ header, update !! header) as [v|]; [|done].
  rewrite update_row.
  destruct (Guide.createDiffRichText _ _) as [red|]; [|by destruct v].
  assert (Hwrite : ∀ w,
            GuideSpec.cell
              (alter (λ line, <[colIndex:=(Guide.String_or_empty w, red)]> line) r newSheet)
              r c = GuideSpec.cell newSheet r c).
  { intros w. apply cell_alter_insert. by intros [= ->]. }
  destruct v; cbn [fst]; try done; apply Hwrite.
Qed.

Lemma applyCells_other cols newSheet c :
  c ∉ cols →
  let out := fold_left (Guide.applyCell data headers update) cols (newSheet, None) in
  out.2 = None ∧ GuideSpec.cell out.1 r c = GuideSpec.cell newSheet r c.
Proof.
  revert newSheet. induction cols as [|col cols IH]; intros newSheet Hc; [done|].
  apply not_elem_of_cons in Hc as [Hne Hc]. cbn zeta. cbn [fold_left].
  pose proof (applyCell_no_error newSheet col) as Herr.
  pose proof (applyCell_other newSheet col c ltac:(done)) as Hcell.
  destruct (Guide.applyCell data headers update (newSheet, None) col) as [sheet1 err].
  cbn [fst snd] in *. subst err.
  destruct (IH sheet1 Hc) as [-> ->]. done.
Qed.

End GuideWrite.

(** X16. The cell an update names gets the new text with its diff.  For an
    update whose [row_index] is a line of the data, a column other than the
    comment column whose header is a defined field of the update is
    rewritten, in the line of the update, with the text of the field (the
    empty text for a falsy value) and the ranges of the diff against the
    source cell; the step raises no error. *)
Theorem guide_update_writes_field (data : list (list (list N))) (headers : list (list N))
    (newSheet : list (list (list N * list (nat * nat))))
    (update : gmap (list N) jsval) (r c : nat) (d : list (list N)) (h : list N)
    (v : jsval) :
  Guide.data_row data update = Some (r, d) →
  headers !! c = Some h →
  c ≠ length headers - 1 →
  update !! h = Some v →
  v ≠ VUndefined →
  is_Some (GuideSpec.cell newSheet r c) →
  ∃ red,
    Guide.createDiffRichText (default [] (d !! c)) (Guide.String_or_empty v) = Some red
    ∧ GuideSpec.cell (Guide.applyUpdates data headers newSheet [update]).1 r c
      = Some (Guide.String_or_empty v, red)
    ∧ (Guide.applyUpdates data headers newSheet [update]).2 = None.
Proof.
  intros Hrow Hh Hc Hv Hdef Hcell.
  destruct (guide_diff_returns (default [] (d !! c)) (Guide.String_or_empty v))
    as [red Hred].
  exists red. split; [done|].
  unfold Guide.applyUpdates, Guide.applyUpdate. cbn [fold_left].
  assert (Hlt : c < length headers) by by eapply lookup_lt_Some.
  assert (Hcols : seq 0 (length headers)
                  = seq 0 c ++ c :: seq (S c) (length headers - S c)).
  { replace (length headers) with (c + S (length headers - S c)) at 1 by lia.
    by rewrite seq_app. }
  rewrite Hcols, fold_left_app. cbn [fold_left].
  destruct (applyCells_other data headers update r d Hrow (seq 0 c) newSheet c)
    as [Herr0 Hcell0].
  { rewrite elem_of_seq. lia. }
  destruct (fold_left (Guide.applyCell data headers update) (seq 0 c) (newSheet, None))
    as [sheet0 err0].
  cbn [fst snd] in *. subst err0.
  assert (Hstep : Guide.applyCell data headers update (sheet0, None) c
                  = (alter (λ line, <[c:=(Guide.String_or_empty v, red)]> line) r sheet0,
                     None)).
  { unfold Guide.applyCell. rewrite bool_decide_eq_false_2 by lia.
    rewrite Hh. cbn [mbind option_bind]. rewrite Hv, Hrow, Hred. by destruct v. }
  rewrite Hstep.
  destruct (applyCells_other data headers update r d Hrow
              (seq (S c) (length headers - S c))
              (alter (λ line, <[c:=(Guide.String_or_empty v, red)]> line) r sheet0) c)
    as [Herr1 Hcell1].
  { rewrite elem_of_seq. lia. }
  split; [|done]. rewrite Hcell1.
  unfold GuideSpec.cell in *. rewrite list_lookup_alter_eq.
  rewrite <- Hcell0 in Hcell. destruct (sheet0 !! r) as [line|]; [|by destruct Hcell].
  cbn [fmap option_fmap option_map mbind option_bind] in *.
  destruct Hcell as [x Hx]. apply lookup_lt_Some in Hx.
  by rewrite list_lookup_insert_eq.
Qed.

Lemma guide_update_writes_field_witness :
  GuideSpec.cell
    (Guide.applyUpdates Scenario.values Scenario.headers
       (Guide.copySheet Scenario.values) [Scenario.update]).1 2 1
  = Some (lit "Draft B!!", [(7, 8); (8, 9)]).
Proof.
  destruct (guide_update_writes_field Scenario.values Scenario.headers
              (Guide.copySheet Scenario.values) Scenario.update 2 1
              [lit "2"; lit "Draft B"; lit "make punchier"] (lit "Title")
              (VStr (lit "Draft B!!")))
    as (red & Hred & Hcell & _).
  - vm_compute. reflexivity.
  - reflexivity.
  - vm_compute. lia.
  - vm_compute. reflexivity.
  - discriminate.
  - vm_compute. eexists. reflexivity.
  - rewrite Hcell. f_equal. f_equal.
    vm_compute in Hred. injection Hred as <-. reflexivity.
Defined.

(** ** The sheet functions of the implementation guide *)

Lemma insert_sorted_head {A} (key : A → N) (x : A) (l : list A) :
  head (GuideSheets.insert_sorted (λ a b, Z.of_N (key b) - Z.of_N (key a))%Z x l)
  = Some (match head l with
          | Some y => if (key y <=? key x)%N then x else y
          | None => x
          end).
Proof.
  destruct l as [|y l]; [done|]. cbn [GuideSheets.insert_sorted head].
  destruct (Z.leb_spec (Z.of_N (key y) - Z.of_N (key x)) 0),
           (N.leb_spec (key y) (key x)); try done; lia.
Qed.

(** The head of the sorted list is the first element with the greatest
    key. *)
Lemma sort_head {A} (key : A → N) (l : list A) :
  l ≠ [] →
  ∃ pre s post,
    l = pre ++ s :: post
    ∧ head (GuideSheets.sort (λ a b, Z.of_N (key b) - Z.of_N (key a))%Z l) = Some s
    ∧ (∀ t, t ∈ pre → (key t < key s)%N)
    ∧ (∀ t, t ∈ post → (key t <= key s)%N).
Proof.
  induction l as [|x l IH]; intros Hne; [done|].
  unfold GuideSheets.sort. cbn [foldr]. rewrite insert_sorted_head.
  fold (GuideSheets.sort (λ a b, Z.of_N (key b) - Z.of_N (key a))%Z l).
  destruct l as [|y l'] eqn:Hl.
  - exists [], x, []. split_and!; [done|done|..]; intros t Ht; by apply elem_of_nil in Ht.
  - destruct IH as (pre & s & post & Heq & -> & Hpre & Hpost); [done|].
    destruct (N.leb_spec (key s) (key x)) as [Hle|Hgt].
    + exists [], x, (y :: l'). split_and!; [done|done|..].
      * intros t Ht. by apply elem_of_nil in Ht.
      * intros t Ht. rewrite Heq in Ht.
        apply elem_of_app in Ht as [Ht|Ht]; [specialize (Hpre t Ht); lia|].
        apply elem_of_cons in Ht as [->|Ht]; [done|]. specialize (Hpost t Ht). lia.
    + exists (x :: pre), s, post. rewrite Heq. split_and!; [done|done| |done].
      intros t Ht. apply elem_of_cons in Ht as [->|Ht]; [done|by apply Hpre].
Qed.

Lemma filter_split {A} (P : A → Prop) `{∀ x, Decision (P x)} (l : list A) l1 x l2 :
  filter P l = l1 ++ x :: l2 →
  ∃ k1 k2, l = k1 ++ x :: k2 ∧ filter P k1 = l1 ∧ filter P k2 = l2 ∧ P x.
Proof.
  revert l1. induction l as [|y l IH]; intros l1 Hf.
  - by destruct l1.
  - destruct (decide (P y)) as [Hy|Hy].
    + rewrite filter_cons_True in Hf by done.
      destruct l1 as [|z l1]; cbn [app] in Hf.
      * injection Hf as -> Hf. by exists [], l.
      * injection Hf as -> Hf. destruct (IH l1 Hf) as (k1 & k2 & -> & <- & <- & Hx).
        exists (z :: k1), k2. split_and!; [done| |done|done].
        by rewrite filter_cons_True.
    + rewrite filter_cons_False in Hf by done.
      destruct (IH l1 Hf) as (k1 & k2 & -> & <- & <- & Hx).
      exists (y :: k1), k2. split_and!; [done| |done|done].
      by rewrite filter_cons_False.
Qed.

Lemma Math_max_is_max {A} (key : A → N) (l : list A) s :
  s ∈ l → (∀ t, t ∈ l → (key t <= key s)%N) →
  GuideSheets.Math_max (key <$> l) = key s.
Proof.
  intros Hin Hmax.
  assert (Hle : ∀ k, (∀ t, t ∈ k → (key t <= key s)%N) →
                     (GuideSheets.Math_max (key <$> k) <= key s)%N).
  { induction k as [|y k IH]; intros Hk; [simpl; lia|].
    rewrite fmap_cons. cbn [GuideSheets.Math_max foldr].
    fold (GuideSheets.Math_max (key <$> k)).
    specialize (Hk y ltac:(by left)) as Hy.
    specialize (IH (λ t Ht, Hk t ltac:(by right))). lia. }
  induction l as [|y l IH]; [by apply elem_of_nil in Hin|].
  rewrite fmap_cons. cbn [GuideSheets.Math_max foldr].
  fold (GuideSheets.Math_max (key <$> l)).
  specialize (Hle l (λ t Ht, Hmax t ltac:(by right))).
  apply elem_of_cons in Hin as [<-|Hin]; [lia|].
  specialize (IH Hin (λ t Ht, Hmax t ltac:(by right))).
  specialize (Hmax y ltac:(by left)). lia.
Qed.

Lemma test_VER_show n : GuideSheets.test_VER (lit "VER" ++ CodeTs.show_N n) = true.
Proof.
  destruct (show_N_parse n) as (_ & Hall & Hne).
  rewrite lit_VER. cbn [app GuideSheets.test_VER].
  by rewrite !bool_decide_eq_true_2, Hall, (bool_decide_eq_false_2 _ Hne) by done.
Qed.

Lemma num_show n : GuideSheets.num (lit "VER" ++ CodeTs.show_N n) = n.
Proof.
  destruct (show_N_parse n) as (Hparse & _ & _).
  unfold GuideSheets.num. rewrite lit_VER. cbn [app GuideSheets.replace_VER take].
  rewrite bool_decide_eq_true_2 by done. cbn [drop]. done.
Qed.

(** The two functions on a workbook with a versioned sheet. *)
Lemma guide_versions (sheets : list (list N)) (activeSheet : list N) :
  filter (λ name, GuideSheets.test_VER name = true) sheets ≠ [] →
  ∃ s,
    GuideSheets.first_highest sheets s
    ∧ GuideSheets.getSourceSheet sheets activeSheet = s
    ∧ GuideSheets.getNextVerName sheets = lit "VER" ++ CodeTs.show_N (GuideSheets.num s + 1).
Proof.
  intros Hne. unfold GuideSheets.getSourceSheet, GuideSheets.getNextVerName.
  rewrite !bool_decide_eq_false_2 by done.
  destruct (sort_head GuideSheets.num _ Hne) as (pre & s & post & Heq & Hhead & Hpre & Hpost).
  destruct (filter_split _ sheets pre s post Heq) as (k1 & k2 & -> & Hk1 & Hk2 & Hs).
  exists s. split_and!.
  - exists k1, k2. split_and!; [done|done|..].
    + intros t Ht Htest. apply Hpre. rewrite <- Hk1. by apply list_elem_of_filter.
    + intros t Ht Htest. apply Hpost. rewrite <- Hk2. by apply list_elem_of_filter.
  - destruct (GuideSheets.sort _ _); [done|]. by injection Hhead.
  - do 3 f_equal. rewrite Heq. apply Math_max_is_max.
    + apply elem_of_app. right. by left.
    + intros t Ht. apply elem_of_app in Ht as [Ht|Ht]; [specialize (Hpre t Ht); lia|].
      apply elem_of_cons in Ht as [->|Ht]; [done|by apply Hpost].
Qed.

(** X17. The sheet functions of the guide.  With a sheet named VER and
    digits in the workbook, [getSourceSheet] returns the first sheet with
    the highest number and [getNextVerName] the name with the next number;
    otherwise they return the active sheet and "VER2".  In both cases the
    new name is a versioned name whose number is above the number of every
    versioned sheet, so no sheet of the workbook has it.  The numbers are
    below 2^53. *)
Theorem guide_next_sheet_is_new (sheets : list (list N)) (activeSheet : list N) :
  (∀ name k, name ∈ sheets → GuideSheets.number name = Some k → (k < Version.safe)%N) →
  ((∃ s, GuideSheets.first_highest sheets s
         ∧ GuideSheets.getSourceSheet sheets activeSheet = s
         ∧ GuideSheets.getNextVerName sheets
           = lit "VER" ++ CodeTs.show_N (GuideSheets.num s + 1))
   ∨ ((∀ name, name ∈ sheets → GuideSheets.number name = None)
      ∧ GuideSheets.getSourceSheet sheets activeSheet = activeSheet
      ∧ GuideSheets.getNextVerName sheets = lit "VER2"))
  ∧ (∃ m, GuideSheets.number (GuideSheets.getNextVerName sheets) = Some m
          ∧ ∀ name k, name ∈ sheets → GuideSheets.number name = Some k → (k < m)%N)
  ∧ GuideSheets.getNextVerName sheets ∉ sheets.
Proof.
  intros _.
  assert (Hcases :
    (∃ s, GuideSheets.first_highest sheets s
          ∧ GuideSheets.getSourceSheet sheets activeSheet = s
          ∧ GuideSheets.getNextVerName sheets
            = lit "VER" ++ CodeTs.show_N (GuideSheets.num s + 1))
    ∨ ((∀ name, name ∈ sheets → GuideSheets.number name = None)
       ∧ GuideSheets.getSourceSheet sheets activeSheet = activeSheet
       ∧ GuideSheets.getNextVerName sheets = lit "VER2")).
  { destruct (decide (filter (λ name, GuideSheets.test_VER name = true) sheets = []))
      as [Hnil|Hne].
    - right. unfold GuideSheets.getSourceSheet, GuideSheets.getNextVerName.
      rewrite !bool_decide_eq_true_2 by done. split_and!; [|done..].
      intros name Hin. unfold GuideSheets.number.
      destruct (GuideSheets.test_VER name) eqn:Htest; [|done].
      assert (name ∈ filter (λ name, GuideSheets.test_VER name = true) sheets)
        by by apply list_elem_of_filter.
      rewrite Hnil in *. by apply elem_of_nil in H.
    - left. by apply guide_versions. }
  assert (Hnext : ∃ m, GuideSheets.number (GuideSheets.getNextVerName sheets) = Some m
            ∧ ∀ name k, name ∈ sheets → GuideSheets.number name = Some k → (k < m)%N).
  { destruct Hcases as [(s & (pre & post & -> & Hs & Hpre & Hpost) & _ & ->)
                       |(Hnone & _ & ->)].
    - exists (GuideSheets.num s + 1)%N. unfold GuideSheets.number at 1.
      rewrite test_VER_show, num_show. split; [done|].
      intros name k Hin Hk. unfold GuideSheets.number in Hk.
      destruct (GuideSheets.test_VER name) eqn:Htest; [|done]. injection Hk as <-.
      apply elem_of_app in Hin as [Hin|Hin]; [specialize (Hpre name Hin Htest); lia|].
      apply elem_of_cons in Hin as [->|Hin]; [lia|].
      specialize (Hpost name Hin Htest). lia.
    - exists 2%N. split; [done|]. intros name k Hin Hk. by rewrite (Hnone name Hin) in Hk. }
  split_and!; [done|done|].
  destruct Hnext as (m & Hm & Hbelow). intros Hin.
  specialize (Hbelow _ _ Hin Hm). lia.
Qed.

Lemma guide_next_sheet_is_new_witness :
  GuideSheets.getNextVerName [lit "VER1"; lit "ver7"; lit "VER03"; lit "VER3"]
  ∉ [lit "VER1"; lit "ver7"; lit "VER03"; lit "VER3"].
Proof.
  destruct (guide_next_sheet_is_new [lit "VER1"; lit "ver7"; lit "VER03"; lit "VER3"]
              (lit "ver7")) as (_ & _ & Hnew).
  - intros name k Hin Hk.
    repeat (apply elem_of_cons in Hin as [->|Hin]);
      [..|by apply elem_of_nil in Hin]; vm_compute in Hk; try discriminate;
      injection Hk as <-; reflexivity.
  - exact Hnew.
Defined.

(** ** Rich text written by a run *)




Section RichRun.

Variable fetch : nat → CodeTs.FetchResult.
Variable parse : list N → CodeTs.ParsedBody.
Variables (values : list (list (list N))) (headers : list (list N)).






End RichRun.


(** ** The run of the implementation guide *)


Section GuideRunLemmas.

Variable callCloudRun : nat → CodeTs.Result (list (gmap (list N) jsval)).
Variables (data : list (list (list N))) (headers : list (list N)).





End GuideRunLemmas.




(** ** The monthly quota of the guide's backend *)

Lemma guide_request_step freeLimit premiumLimit total_tokens month email db :
  let c := GuideQuota.counted email month db in
  let out :=
    GuideBackend.rewriteRoute freeLimit premiumLimit true
      (GuideBackend.Responded total_tokens) month (Some email) true true db in
  if decide (c < freeLimit)%Z
  then out.1 = GuideBackend.Success total_tokens
       ∧ GuideQuota.counted email month out.2 = (c + 1)%Z
  else out.1 = GuideBackend.Status 429 ∧ out.2 = db.
Proof.
  cbn zeta. unfold GuideBackend.rewriteRoute, GuideBackend.rewriteHandler,
    GuideBackend.checkUsage, GuideQuota.counted.
  cbn [negb orb GuideBackend.checkPremiumStatus GuideBackend.remaining].
  destruct (db !! GuideBackend.docId email month) as [data|] eqn:Hdoc.
  - destruct (decide (GuideBackend.count data < freeLimit)%Z) as [Hlt|Hge].
    + destruct (Z.leb_spec (Z.max 0 (freeLimit - GuideBackend.count data)) 0); [lia|].
      cbn [fst snd]. split; [done|]. unfold GuideBackend.recordUsage.
      rewrite lookup_insert_eq, Hdoc. done.
    + destruct (Z.leb_spec (Z.max 0 (freeLimit - GuideBackend.count data)) 0); [done|lia].
  - destruct (decide (0 < freeLimit)%Z) as [Hlt|Hge].
    + destruct (Z.leb_spec (Z.max 0 (freeLimit - 0)) 0); [lia|].
      cbn [fst snd]. split; [done|]. unfold GuideBackend.recordUsage.
      rewrite lookup_insert_eq, Hdoc. done.
    + destruct (Z.leb_spec (Z.max 0 (freeLimit - 0)) 0); [done|lia].
Qed.

Lemma guide_requests_count freeLimit premiumLimit total_tokens month email n db :
  let c := GuideQuota.counted email month db in
  let out := GuideQuota.requests freeLimit premiumLimit total_tokens month email n db in
  length out.1 = n
  ∧ (∀ i r, out.1 !! i = Some r →
       r = if decide (c + Z.of_nat i < freeLimit)%Z
           then GuideBackend.Success total_tokens else GuideBackend.Status 429)
  ∧ GuideQuota.counted email month out.2 = Z.max c (Z.min (c + Z.of_nat n) freeLimit).
Proof.
  revert db. induction n as [|n IH]; intros db; cbn zeta.
  - cbn [GuideQuota.requests fst snd length]. split_and!; [done|done|lia].
  - cbn [GuideQuota.requests].
    pose proof (guide_request_step freeLimit premiumLimit total_tokens month email db)
      as Hstep.
    cbn zeta in Hstep.
    destruct (GuideBackend.rewriteRoute freeLimit premiumLimit true
                (GuideBackend.Responded total_tokens) month (Some email) true true db)
      as [r db1].
    specialize (IH db1). cbn zeta in IH.
    destruct (GuideQuota.requests freeLimit premiumLimit total_tokens month email n db1)
      as [rs db2].
    cbn [fst snd] in *. destruct IH as (Hlen & Hrs & Hfinal).
    destruct (decide (GuideQuota.counted email month db < freeLimit)%Z) as [Hlt|Hge].
    + destruct Hstep as [-> Hc1]. rewrite Hc1 in Hrs, Hfinal.
      split_and!; [simpl; lia| |lia].
      intros [|i] r Hi; simpl in Hi.
      * injection Hi as <-. by rewrite decide_True by lia.
      * rewrite (Hrs i r Hi).
        destruct (decide (GuideQuota.counted email month db + 1 + Z.of_nat i
                          < freeLimit)%Z);
          [rewrite decide_True by lia|rewrite decide_False by lia]; done.
    + destruct Hstep as [-> ->].
      split_and!; [simpl; lia| |lia].
      intros [|i] r Hi; simpl in Hi.
      * injection Hi as <-. by rewrite decide_False by lia.
      * rewrite (Hrs i r Hi).
        destruct (decide (GuideQuota.counted email month db + Z.of_nat i < freeLimit)%Z);
          [lia|]. by rewrite decide_False by lia.
Qed.

(** X21. The monthly limit of the guide's backend.  Of the rewrite requests
    a user sends in a month in which nothing is counted for them yet, with
    the key loaded and the model answering, the first [freeLimit] are
    served and counted and every later one is refused with 429; with a
    limit that is not positive none is served.  The premium limit plays no
    part. *)
Theorem guide_monthly_limit (freeLimit premiumLimit total_tokens : Z)
    (month email : list N) (n : nat) (db : gmap (list N) GuideBackend.Usage) :
  db !! GuideBackend.docId email month = None →
  let out := GuideQuota.requests freeLimit premiumLimit total_tokens month email n db in
  length out.1 = n
  ∧ (∀ i r, out.1 !! i = Some r →
       r = if decide (Z.of_nat i < freeLimit)%Z
           then GuideBackend.Success total_tokens else GuideBackend.Status 429)
  ∧ GuideQuota.counted email month out.2 = Z.max 0 (Z.min (Z.of_nat n) freeLimit)
  ∧ out.1
    = (GuideQuota.requests freeLimit 0 total_tokens month email n db).1.
Proof.
  intros Hnone. cbn zeta.
  destruct (guide_requests_count freeLimit premiumLimit total_tokens month email n db)
    as (Hlen & Hrs & Hfinal).
  destruct (guide_requests_count freeLimit 0 total_tokens month email n db)
    as (Hlen0 & Hrs0 & _).
  assert (Hc : GuideQuota.counted email month db = 0%Z)
    by (unfold GuideQuota.counted; by rewrite Hnone).
  rewrite Hc in *. split_and!; [done|done|done|].
  apply list_eq. intros i.
  destruct ((GuideQuota.requests freeLimit premiumLimit total_tokens month email n db).1
              !! i) as [r|] eqn:Hi.
  - rewrite (Hrs i r Hi).
    destruct (lookup_lt_is_Some_2
                (GuideQuota.requests freeLimit 0 total_tokens month email n db).1 i)
      as [r0 Hr0]; [apply lookup_lt_Some in Hi; lia|].
    by rewrite Hr0, (Hrs0 i r0 Hr0).
  - symmetry. apply lookup_ge_None_2. apply lookup_ge_None in Hi. lia.
Qed.

Lemma guide_monthly_limit_witness :
  GuideQuota.counted (lit "a@b.c") (lit "2025-01")
    (GuideQuota.requests 2 10000 150 (lit "2025-01") (lit "a@b.c") 3 ∅).2
  = 2%Z.
Proof.
  destruct (guide_monthly_limit 2 10000 150 (lit "2025-01") (lit "a@b.c") 3 ∅)
    as (_ & _ & Hcount & _).
  - reflexivity.
  - exact Hcount.
Defined.

(** ** The backend and the script together *)







(** ** Edge cases of the script *)

(** X23. [chunkArray] with size 0: for an array that is not empty the loop
    never ends, it stays at the same index whatever the number of
    iterations allowed; the empty array gives no chunk for every size. *)
Theorem chunk_size_zero_never_returns {T} (array : list T) :
  (∀ fuel i chunks, i < length array → CodeTs.chunk_loop fuel array 0 i chunks = None)
  ∧ (array ≠ [] → CodeTs.chunkArray array 0 = None)
  ∧ (∀ size, CodeTs.chunkArray (@nil T) size = Some []).
Proof.
  assert (Hloop : ∀ fuel i chunks, i < length array →
            CodeTs.chunk_loop fuel array 0 i chunks = None).
  { induction fuel as [|fuel IH]; intros i chunks Hi.
    - cbn [CodeTs.chunk_loop]. by rewrite (proj2 (Nat.ltb_lt _ _) Hi).
    - cbn [CodeTs.chunk_loop]. rewrite (proj2 (Nat.ltb_lt _ _) Hi).
      rewrite Nat.add_0_r. by apply IH. }
  split_and!; [done| |done].
  intros Hne. apply Hloop. destruct array; [done|simpl; lia].
Qed.



